(** * markd: path resolution and cache validation of the markdown server

    A shallow embedding of [server.js], in its two variants (the hardened
    server and the legacy server), together with the properties of its
    request pipeline.

    JavaScript strings are sequences of UTF-16 code units; they are modelled
    as lists of [N].  The functions of Node's [path] module, [String.prototype]
    and [decodeURIComponent] which the server calls are modelled after their
    documented algorithms for a POSIX host. *)

From Stdlib Require Import NArith List String Ascii Lia Bool.
From stdpp Require Import gmap list.
Import ListNotations.

Local Open Scope N_scope.

(** ** JavaScript strings *)

Module JS.

Definition jsstring := list N.

(** Literal of the embedding: the code units of an ASCII text. *)
Definition lit (s : string) : jsstring :=
  List.map N_of_ascii (list_ascii_of_string s).

Definition SLASH : N := 47.
Definition DOT : N := 46.
Definition QMARK : N := 63.
Definition HASH : N := 35.
Definition PERCENT : N := 37.
Definition DOLLAR : N := 36.
Definition DQUOTE : N := 34.

(** [s.startsWith(p)] *)
Fixpoint startsWith (s p : jsstring) {struct p} : bool :=
  match p, s with
  | [], _ => true
  | _ :: _, [] => false
  | a :: p', b :: s' => (a =? b) && startsWith s' p'
  end.

(** [s.endsWith(p)] *)
Definition endsWith (s p : jsstring) : bool :=
  startsWith (rev s) (rev p).

(** [s.includes(p)] *)
Fixpoint includes (s p : jsstring) : bool :=
  startsWith s p
  || match s with
     | [] => false
     | _ :: r => includes r p
     end.

(** [a === b] on strings. *)
Definition streq (a b : jsstring) : bool := bool_decide (a = b).

(** [s.slice(1)] *)
Definition slice1 (s : jsstring) : jsstring := tl s.

(** [s.slice(0, -1)] *)
Definition slice_0_m1 (s : jsstring) : jsstring := removelast s.

(** [s.split(c)] for a separator [c] of one code unit.  The result is never
    empty: the empty string splits into one empty piece. *)
Fixpoint split (c : N) (s : jsstring) : list jsstring :=
  match s with
  | [] => [[]]
  | x :: r =>
      if x =? c then [] :: split c r
      else match split c r with
           | [] => [[x]]
           | w :: ws => (x :: w) :: ws
           end
  end.

(** [l.join(sep)] *)
Fixpoint join (sep : jsstring) (l : list jsstring) : jsstring :=
  match l with
  | [] => []
  | [x] => x
  | x :: r => x ++ sep ++ join sep r
  end.

(** *** decodeURIComponent

    The escapes [%XX] are read first; the octets they denote are then decoded
    as UTF-8 into code units.  [None] stands for the [URIError] thrown on a
    malformed escape or on octets that are not UTF-8. *)

Definition hexval (c : N) : option N :=
  if (48 <=? c) && (c <=? 57) then Some (c - 48)
  else if (65 <=? c) && (c <=? 70) then Some (c - 55)
  else if (97 <=? c) && (c <=? 102) then Some (c - 87)
  else None.

Inductive token : Type :=
| Lit (c : N)
| Esc (b : N).

Fixpoint unescape (s : jsstring) : option (list token) :=
  match s with
  | [] => Some []
  | c :: r =>
      if c =? PERCENT then
        match r with
        | h1 :: h2 :: r' =>
            match hexval h1, hexval h2 with
            | Some a, Some b =>
                match unescape r' with
                | Some ts => Some (Esc (16 * a + b) :: ts)
                | None => None
                end
            | _, _ => None
            end
        | _ => None
        end
      else
        match unescape r with
        | Some ts => Some (Lit c :: ts)
        | None => None
        end
  end.

(** The payload of a continuation octet [10xxxxxx]. *)
Definition cont (t : token) : option N :=
  match t with
  | Esc b => if (128 <=? b) && (b <? 192) then Some (b - 128) else None
  | Lit _ => None
  end.

(** Code units of a code point. *)
Definition units (v : N) : jsstring :=
  if v <? 65536 then [v]
  else [55296 + (v - 65536) / 1024; 56320 + (v - 65536) mod 1024].

Fixpoint utf8 (ts : list token) : option jsstring :=
  match ts with
  | [] => Some []
  | Lit c :: r =>
      match utf8 r with Some o => Some (c :: o) | None => None end
  | Esc b :: r =>
      if b <? 128 then
        match utf8 r with Some o => Some (b :: o) | None => None end
      else if b <? 192 then None
      else if b <? 224 then
        match r with
        | t1 :: r' =>
            match cont t1 with
            | Some c1 =>
                let v := (b - 192) * 64 + c1 in
                if v <? 128 then None
                else match utf8 r' with
                     | Some o => Some (units v ++ o)
                     | None => None
                     end
            | None => None
            end
        | _ => None
        end
      else if b <? 240 then
        match r with
        | t1 :: t2 :: r' =>
            match cont t1, cont t2 with
            | Some c1, Some c2 =>
                let v := (b - 224) * 4096 + c1 * 64 + c2 in
                if (v <? 2048) || ((55296 <=? v) && (v <=? 57343)) then None
                else match utf8 r' with
                     | Some o => Some (units v ++ o)
                     | None => None
                     end
            | _, _ => None
            end
        | _ => None
        end
      else if b <? 248 then
        match r with
        | t1 :: t2 :: t3 :: r' =>
            match cont t1, cont t2, cont t3 with
            | Some c1, Some c2, Some c3 =>
                let v := (b - 240) * 262144 + c1 * 4096 + c2 * 64 + c3 in
                if (v <? 65536) || (1114111 <? v) then None
                else match utf8 r' with
                     | Some o => Some (units v ++ o)
                     | None => None
                     end
            | _, _, _ => None
            end
        | _ => None
        end
      else None
  end.

Definition decodeURIComponent (s : jsstring) : option jsstring :=
  match unescape s with
  | Some ts => utf8 ts
  | None => None
  end.

End JS.

(** ** Node's [path] module on a POSIX host *)

Module Path.
Import JS.

Definition sep : jsstring := [SLASH].
Definition dot : jsstring := [DOT].
Definition dotdot : jsstring := [DOT; DOT].

Definition is_empty (s : jsstring) : bool :=
  match s with [] => true | _ => false end.

(** [normalizeString]: the segments between separators are visited from left
    to right; empty segments and [.] are dropped, [..] removes the segment
    before it unless there is none or it is itself [..], in which case it is
    kept when [allowAboveRoot] and dropped otherwise.  [res] holds the
    segments kept so far, the last one first. *)
Fixpoint normalizeSegs (allowAboveRoot : bool) (segs res : list jsstring)
  : list jsstring :=
  match segs with
  | [] => rev res
  | s :: r =>
      if is_empty s || streq s dot then normalizeSegs allowAboveRoot r res
      else if streq s dotdot then
        match res with
        | top :: below =>
            if streq top dotdot then
              normalizeSegs allowAboveRoot r
                (if allowAboveRoot then dotdot :: res else res)
            else normalizeSegs allowAboveRoot r below
        | [] =>
            normalizeSegs allowAboveRoot r
              (if allowAboveRoot then [dotdot] else [])
        end
      else normalizeSegs allowAboveRoot r (s :: res)
  end.

Definition normalizeString (p : jsstring) (allowAboveRoot : bool) : jsstring :=
  join sep (normalizeSegs allowAboveRoot (split SLASH p) []).

(** [path.posix.isAbsolute] *)
Definition isAbsolute (p : jsstring) : bool := startsWith p sep.

(** [path.posix.normalize] *)
Definition normalize (p : jsstring) : jsstring :=
  if is_empty p then dot
  else
    let isAbs := isAbsolute p in
    let trailingSeparator := endsWith p sep in
    let q := normalizeString p (negb isAbs) in
    if is_empty q then
      (if isAbs then sep else if trailingSeparator then lit "./" else dot)
    else
      let q := if trailingSeparator then q ++ sep else q in
      if isAbs then sep ++ q else q.

(** [path.posix.join]: the non-empty arguments joined by the separator, then
    normalised. *)
Definition pjoin (args : list jsstring) : jsstring :=
  match List.filter (fun a => negb (is_empty a)) args with
  | [] => dot
  | l => normalize (join sep l)
  end.

(** The loop of [path.posix.resolve]: arguments are taken from the last to
    the first until the accumulated path is absolute. *)
Fixpoint resolveLoop (revArgs : list jsstring) (resolvedPath : jsstring)
  : jsstring * bool :=
  match revArgs with
  | [] => (resolvedPath, false)
  | p :: r =>
      if is_empty p then resolveLoop r resolvedPath
      else
        let rp := p ++ sep ++ resolvedPath in
        if isAbsolute p then (rp, true) else resolveLoop r rp
  end.

(** [path.posix.resolve(...args)] with the working directory [cwd]. *)
Definition resolve (cwd : jsstring) (args : list jsstring) : jsstring :=
  let '(rp, resolvedAbsolute) := resolveLoop (rev (cwd :: args)) [] in
  let q := normalizeString rp (negb resolvedAbsolute) in
  if resolvedAbsolute then sep ++ q
  else if is_empty q then dot else q.

(** Segments of a resolved path: [/a/b] has the segments [a] and [b], the
    root [/] has none. *)
Definition segments (p : jsstring) : list jsstring :=
  match tl p with
  | [] => []
  | q => split SLASH q
  end.

Fixpoint commonPrefix (a b : list jsstring) : nat :=
  match a, b with
  | x :: a', y :: b' => if streq x y then S (commonPrefix a' b') else O
  | _, _ => O
  end.

(** [path.posix.relative(from, to)]: both paths are resolved; the result
    climbs out of the segments of [from] beyond the common ones and descends
    the remaining segments of [to].  Node compares the two resolved strings
    code unit by code unit and cuts them at the last separator they share;
    on resolved paths that is the comparison of their segments. *)
Definition relative (cwd from to : jsstring) : jsstring :=
  if streq from to then []
  else
    let from := resolve cwd [from] in
    let to := resolve cwd [to] in
    if streq from to then []
    else
      let F := segments from in
      let T := segments to in
      let k := commonPrefix F T in
      join sep (repeat dotdot (length F - k)%nat ++ drop k T).

End Path.

(** ** String replacement *)

Module Replace.
Import JS.

(** [GetSubstitution] for a string pattern (no captures): in the replacement
    text [$$] stands for a dollar sign, [$&] for the matched text, [$`] for
    the text before the match and [$'] for the text after it; every other
    dollar sign stands for itself. *)
Fixpoint getSubstitution (matched before after templ : jsstring) : jsstring :=
  match templ with
  | [] => []
  | c :: r =>
      if c =? DOLLAR then
        match r with
        | d :: r' =>
            if d =? DOLLAR then DOLLAR :: getSubstitution matched before after r'
            else if d =? 38 then matched ++ getSubstitution matched before after r'
            else if d =? 96 then before ++ getSubstitution matched before after r'
            else if d =? 39 then after ++ getSubstitution matched before after r'
            else DOLLAR :: getSubstitution matched before after r
        | [] => [DOLLAR]
        end
      else c :: getSubstitution matched before after r
  end.

(** [s.replaceAll(pat, repl)] for a non-empty string [pat]: the text is
    scanned from left to right, [before] is the text already passed and
    [skip] counts the code units of a match still to be passed over. *)
Fixpoint replaceAllGo (pat repl before : jsstring) (skip : nat) (s : jsstring)
  : jsstring :=
  match s with
  | [] => []
  | c :: r =>
      match skip with
      | S k => replaceAllGo pat repl (before ++ [c]) k r
      | O =>
          if startsWith s pat then
            getSubstitution pat before (drop (length pat) s) repl
              ++ replaceAllGo pat repl (before ++ [c]) (length pat - 1) r
          else c :: replaceAllGo pat repl (before ++ [c]) 0 r
      end
  end.

Definition replaceAll (s pat repl : jsstring) : jsstring :=
  replaceAllGo pat repl [] 0 s.

(** [s.replace(pat, repl)] for a non-empty string [pat]: only the first
    occurrence is replaced. *)
Fixpoint replaceGo (pat repl before s : jsstring) : jsstring :=
  match s with
  | [] => []
  | c :: r =>
      if startsWith s pat then
        getSubstitution pat before (drop (length pat) s) repl
          ++ drop (length pat) s
      else c :: replaceGo pat repl (before ++ [c]) r
  end.

Definition replace (s pat repl : jsstring) : jsstring :=
  replaceGo pat repl [] s.

End Replace.

(** ** The environment of the server *)

(** Options passed to [sanitize-html]. *)
Record SanitizeOptions : Type := {
  allowedTags : list JS.jsstring;
  allowedAttributes : list (JS.jsstring * list JS.jsstring)
}.

(** What the server takes from outside its own code: its location, the
    template read at start-up, the year, and the libraries it delegates to.
    [marked_parse] and [sanitizeHtml] return [None] when the library
    throws. *)
Record Env : Type := {
  dirname : JS.jsstring;
  cwd : JS.jsstring;
  template : JS.jsstring;
  COPYDATE : JS.jsstring;
  sha256hex : JS.jsstring -> JS.jsstring;
  marked_parse : JS.jsstring -> option JS.jsstring;
  sanitizeHtml : SanitizeOptions -> JS.jsstring -> option JS.jsstring;
  defaults_allowedTags : list JS.jsstring
}.

(** The files as seen by [fs.existsSync] and [fs.readFileSync(_, "utf8")];
    [None] is a read that throws.  The two are independent: a directory
    exists and cannot be read. *)
Record FileSystem : Type := {
  existsSync : JS.jsstring -> bool;
  readFileSync : JS.jsstring -> option JS.jsstring
}.

(** ** Effects: the page cache, the calls made, exceptions *)

Module Eff.
Import JS.

(** Calls observed during a request, the latest last.  [EvTemplate] marks
    an entry into [renderTemplate]; the other events are calls of the file
    system and of the libraries. *)
Inductive event : Type :=
| EvExists (p : jsstring)
| EvRead (p : jsstring)
| EvMarked (md : jsstring)
| EvSanitize (o : SanitizeOptions) (html : jsstring)
| EvTemplate (title content : jsstring).

Record state (C : Type) : Type := {
  pageCache : gmap jsstring C;
  trace : list event
}.
Arguments pageCache {C} _.
Arguments trace {C} _.

Inductive result (A : Type) : Type :=
| Ok (a : A)
| Throw.
Arguments Ok {A} _.
Arguments Throw {A}.

Definition M (C A : Type) : Type :=
  FileSystem -> state C -> result A * state C.

Definition ret {C A} (a : A) : M C A := fun _ s => (Ok a, s).

Definition bind {C A B} (m : M C A) (f : A -> M C B) : M C B :=
  fun fs s =>
    match m fs s with
    | (Ok a, s') => f a fs s'
    | (Throw, s') => (Throw, s')
    end.

(** [try { m } catch { h }] *)
Definition try_catch {C A} (m h : M C A) : M C A :=
  fun fs s =>
    match m fs s with
    | (Ok a, s') => (Ok a, s')
    | (Throw, s') => h fs s'
    end.

Definition log {C} (e : event) : M C unit :=
  fun _ s => (Ok tt, {| pageCache := pageCache s; trace := trace s ++ [e] |}).

Definition lift {C A} (o : option A) : M C A :=
  fun _ s => match o with Some a => (Ok a, s) | None => (Throw, s) end.

Definition fs_existsSync {C} (p : jsstring) : M C bool :=
  fun fs s =>
    (Ok (existsSync fs p),
     {| pageCache := pageCache s; trace := trace s ++ [EvExists p] |}).

Definition fs_readFileSync {C} (p : jsstring) : M C jsstring :=
  fun fs s =>
    let s' := {| pageCache := pageCache s; trace := trace s ++ [EvRead p] |} in
    match readFileSync fs p with
    | Some txt => (Ok txt, s')
    | None => (Throw, s')
    end.

(** [pageCache.get(route)] *)
Definition cache_get {C} (route : jsstring) : M C (option C) :=
  fun _ s => (Ok (pageCache s !! route), s).

(** [pageCache.set(route, entry)] *)
Definition cache_set {C} (route : jsstring) (entry : C) : M C unit :=
  fun _ s =>
    (Ok tt, {| pageCache := <[route := entry]> (pageCache s); trace := trace s |}).

End Eff.

Declare Scope eff_scope.
Delimit Scope eff_scope with eff.
Notation "'let*' x := m 'in' k" := (Eff.bind m (fun x => k))
  (at level 10, x name, m at level 100, k at level 200,
   format "'[v' 'let*'  x  :=  m  'in' '/' k ']'") : eff_scope.
Notation "m >> k" := (Eff.bind m (fun _ => k))
  (at level 90, right associativity) : eff_scope.

(** An HTTP request as the handler reads it, and the response it writes. *)
Record request : Type := {
  method : JS.jsstring;
  url : JS.jsstring;
  headers : gmap JS.jsstring JS.jsstring
}.

Record response : Type := {
  status : N;
  resHeaders : list (JS.jsstring * JS.jsstring);
  body : JS.jsstring
}.

(** ** Code shared by the two servers *)

Module Common.
Import JS Path.

(** The test [if (!v)] on a string or [null]: [null] and the empty string
    are both taken for absent. *)
Definition truthy (o : option jsstring) : option jsstring :=
  match o with
  | None => None
  | Some s => if is_empty s then None else Some s
  end.

Definition SITE_NAME : jsstring := lit "My Web Site".
Definition AUTHOR : jsstring := lit "Chris Northcott".

Definition hashContent (E : Env) (content : jsstring) : jsstring :=
  sha256hex E content.

Definition sanitiseUrl (urlPath : jsstring) : option jsstring :=
  let clean := hd [] (split HASH (hd [] (split QMARK urlPath))) in
  match decodeURIComponent clean with
  | None => None
  | Some clean =>
      let clean := normalize clean in
      let clean := if startsWith clean (lit "/") then clean
                   else lit "/" ++ clean in
      let clean := if endsWith clean (lit "/") && negb (streq clean (lit "/"))
                   then slice_0_m1 clean else clean in
      let clean := if streq clean [] then lit "/" else clean in
      Some clean
  end.

(** The document name of a route, also used as the page title. *)
Definition routeName (cleanPath : jsstring) : jsstring :=
  if streq cleanPath (lit "/") then lit "index" else slice1 cleanPath.

Definition pagesDir (E : Env) : jsstring := pjoin [dirname E; lit "pages"].

End Common.

(** ** The hardened server *)

Module Hardened.
Import JS Path Replace Eff Common.
Local Open Scope eff_scope.

(** An entry of the page cache: route → { hash, html, etag }. *)
Record CacheEntry : Type := {
  hash : jsstring;
  html : jsstring;
  etag : jsstring
}.

Definition pageOptions (E : Env) : SanitizeOptions :=
  {| allowedTags :=
       defaults_allowedTags E ++
         [lit "img"; lit "h1"; lit "h2"; lit "h3"; lit "pre"; lit "code"];
     allowedAttributes :=
       [(lit "a", [lit "href"; lit "name"; lit "target"]);
        (lit "img", [lit "src"; lit "alt"])] |}.

Definition navOptions (E : Env) : SanitizeOptions :=
  {| allowedTags := defaults_allowedTags E;
     allowedAttributes :=
       [(lit "a", [lit "href"; lit "name"; lit "target"])] |}.

Definition securityHeaders (tag : jsstring) : list (jsstring * jsstring) :=
  [(lit "Content-Type", lit "text/html; charset=utf-8");
   (lit "ETag", tag);
   (lit "Cache-Control", lit "public, max-age=0, must-revalidate");
   (lit "X-Content-Type-Options", lit "nosniff");
   (lit "X-Frame-Options", lit "DENY");
   (lit "Referrer-Policy", lit "no-referrer");
   (lit "Content-Security-Policy",
    lit "default-src 'self'; script-src 'none'; object-src 'none'; base-uri 'none'; frame-ancestors 'none'")].

Section Server.
Variable E : Env.

Definition marked : jsstring -> M CacheEntry jsstring :=
  fun md => log (EvMarked md) >> lift (marked_parse E md).

Definition sanitize (o : SanitizeOptions) : jsstring -> M CacheEntry jsstring :=
  fun h => log (EvSanitize o h) >> lift (sanitizeHtml E o h).

Definition navFile : jsstring := pjoin [dirname E; lit "nav.md"].

Definition buildNav : M CacheEntry jsstring :=
  let* present := fs_existsSync navFile in
  if negb present then ret []
  else
    try_catch
      (let* md := fs_readFileSync navFile in
       let* rawHtml := marked md in
       sanitize (navOptions E) rawHtml)
      (ret []).

(** The six substitutions, in the order of the source. *)
Definition substitute (title nav content : jsstring) : jsstring :=
  replaceAll
    (replaceAll
       (replaceAll
          (replaceAll
             (replaceAll
                (replaceAll (template E) (lit "{{site}}") SITE_NAME)
                (lit "{{author}}") AUTHOR)
             (lit "{{copydate}}") (COPYDATE E))
          (lit "{{title}}") title)
       (lit "{{nav}}") nav)
    (lit "{{content}}") content.

Definition renderTemplate (title content : jsstring) : M CacheEntry jsstring :=
  log (EvTemplate title content) >>
  let* nav := buildNav in
  ret (substitute title nav content).

Definition routeToFile (cleanPath : jsstring) : option jsstring :=
  let name := routeName cleanPath in
  let candidate := resolve (cwd E) [pagesDir E; name ++ lit ".md"] in
  let rel := relative (cwd E) (pagesDir E) candidate in
  if startsWith rel (lit "..") || isAbsolute rel then None
  else Some candidate.

Definition buildPage (route filePath : jsstring) : M CacheEntry CacheEntry :=
  let* md := fs_readFileSync filePath in
  let contentHash := hashContent E md in
  let render : M CacheEntry CacheEntry :=
    let* rawHtml := marked md in
    let* htmlBody := sanitize (pageOptions E) rawHtml in
    let title := routeName route in
    let* fullHtml := renderTemplate title htmlBody in
    let tag := [DQUOTE] ++ hashContent E fullHtml ++ [DQUOTE] in
    let result := {| hash := contentHash; html := fullHtml; etag := tag |} in
    cache_set route result >>
    ret result in
  let* cached := cache_get route in
  match cached with
  | Some c => if streq (hash c) contentHash then ret c else render
  | None => render
  end.

Definition plain (code : N) (hs : list (jsstring * jsstring)) (txt : string)
  : response :=
  {| status := code; resHeaders := hs; body := lit txt |}.

Definition handler (req : request) : M CacheEntry response :=
  if negb (streq (method req) (lit "GET")) then
    ret (plain 405 [(lit "Content-Type", lit "text/plain; charset=utf-8")]
           "Method Not Allowed")
  else
    match truthy (sanitiseUrl (url req)) with
    | None => ret (plain 400 [] "Bad Request")
    | Some cleanPath =>
        match truthy (routeToFile cleanPath) with
        | None => ret (plain 403 [] "Forbidden")
        | Some filePath =>
            let* present := fs_existsSync filePath in
            if negb present then ret (plain 404 [] "Not Found")
            else
              try_catch
                (let* page := buildPage cleanPath filePath in
                 if bool_decide (headers req !! lit "if-none-match"
                                 = Some (etag page))
                 then ret {| status := 304; resHeaders := []; body := [] |}
                 else ret {| status := 200;
                             resHeaders := securityHeaders (etag page);
                             body := html page |})
                (ret (plain 500 [] "Internal Server Error"))
        end
    end.

End Server.
End Hardened.

(** ** The legacy server *)

Module Legacy.
Import JS Path Replace Eff Common.
Local Open Scope eff_scope.

(** An entry of the page cache: route → { hash, html }. *)
Record CacheEntry : Type := {
  hash : jsstring;
  html : jsstring
}.

Definition pageHeaders : list (jsstring * jsstring) :=
  [(lit "Content-Type", lit "text/html; charset=utf-8");
   (lit "X-Content-Type-Options", lit "nosniff");
   (lit "X-Frame-Options", lit "DENY");
   (lit "Referrer-Policy", lit "no-referrer")].

Section Server.
Variable E : Env.

Definition marked : jsstring -> M CacheEntry jsstring :=
  fun md => log (EvMarked md) >> lift (marked_parse E md).

Definition substitute (title content : jsstring) : jsstring :=
  replace
    (replace
       (replace
          (replace
             (replace (template E) (lit "{{site}}") SITE_NAME)
             (lit "{{author}}") AUTHOR)
          (lit "{{copydate}}") (COPYDATE E))
       (lit "{{title}}") title)
    (lit "{{content}}") content.

Definition renderTemplate (title content : jsstring) : M CacheEntry jsstring :=
  log (EvTemplate title content) >>
  ret (substitute title content).

Definition routeToFile (cleanPath : jsstring) : option jsstring :=
  let name := routeName cleanPath in
  let file := pjoin [pagesDir E; name ++ lit ".md"] in
  if negb (startsWith file (pagesDir E)) then None
  else Some file.

Definition buildPage (route filePath : jsstring) : M CacheEntry jsstring :=
  let* md := fs_readFileSync filePath in
  let newHash := hashContent E md in
  let render : M CacheEntry jsstring :=
    let* htmlBody := marked md in
    let title := routeName route in
    let* fullHtml := renderTemplate title htmlBody in
    cache_set route {| hash := newHash; html := fullHtml |} >>
    ret fullHtml in
  let* cached := cache_get route in
  match cached with
  | Some c => if streq (hash c) newHash then ret (html c) else render
  | None => render
  end.

Definition plain (code : N) (txt : string) : response :=
  {| status := code; resHeaders := []; body := lit txt |}.

Definition handler (req : request) : M CacheEntry response :=
  if negb (streq (method req) (lit "GET")) && negb (streq (method req) (lit "POST"))
  then ret (plain 405 "Method Not Allowed")
  else
    match truthy (sanitiseUrl (url req)) with
    | None => ret (plain 400 "Bad Request")
    | Some cleanPath =>
        match truthy (routeToFile cleanPath) with
        | None => ret (plain 403 "Forbidden")
        | Some filePath =>
            let* present := fs_existsSync filePath in
            if negb present then ret (plain 404 "Not Found")
            else
              try_catch
                (let* page := buildPage cleanPath filePath in
                 ret {| status := 200; resHeaders := pageHeaders;
                        body := page |})
                (ret (plain 500 "Internal Server Error"))
        end
    end.

End Server.
End Legacy.

(** ** Vocabulary of the properties *)

Module Spec.
Import JS Path Replace Eff Common.
Local Open Scope eff_scope.

(** A segment that names a file or directory: not empty, not [.] or [..],
    without a separator. *)
Definition properName (s : jsstring) : bool :=
  negb (is_empty s) && negb (streq s dot) && negb (streq s dotdot)
  && forallb (fun c => negb (c =? SLASH)) s.

(** [f] lies strictly below the directory [root]: it is [root], a separator
    and one or more proper names. *)
Definition insideRoot (root f : jsstring) : bool :=
  startsWith f (root ++ sep)
  && forallb properName (split SLASH (drop (length root + 1) f)).

(** The steps of [sanitiseUrl] after decoding. *)
Definition finish (d : jsstring) : jsstring :=
  let clean := normalize d in
  let clean := if startsWith clean (lit "/") then clean else lit "/" ++ clean in
  let clean := if endsWith clean (lit "/") && negb (streq clean (lit "/"))
               then slice_0_m1 clean else clean in
  if streq clean [] then lit "/" else clean.

(** The value [sanitiseUrl] compares with the empty string in its last
    step. *)
Definition trimmed (d : jsstring) : jsstring :=
  let clean := normalize d in
  let clean := if startsWith clean (lit "/") then clean else lit "/" ++ clean in
  if endsWith clean (lit "/") && negb (streq clean (lit "/"))
  then slice_0_m1 clean else clean.

(** The placeholders of the template. *)
Definition placeholders : list jsstring :=
  [lit "{{site}}"; lit "{{author}}"; lit "{{copydate}}"; lit "{{title}}";
   lit "{{nav}}"; lit "{{content}}"].

(** No proper suffix of [tok] is a prefix of it: two occurrences of [tok]
    in a text never overlap. *)
Definition unbordered (tok : jsstring) : bool :=
  forallb (fun i => negb (startsWith tok (drop i tok)))
    (seq 1 (length tok - 1)).

Definition logged {C} (e : event) (s : state C) : state C :=
  {| pageCache := pageCache s; trace := trace s ++ [e] |}.

Definition quoted (s : jsstring) : jsstring := [DQUOTE] ++ s ++ [DQUOTE].

(** The file an event reads or tests. *)
Definition touched (e : event) : option jsstring :=
  match e with
  | EvExists p | EvRead p => Some p
  | _ => None
  end.

(** A markdown conversion, a sanitisation or a template substitution. *)
Definition isRender (e : event) : bool :=
  match e with
  | EvMarked _ | EvSanitize _ _ | EvTemplate _ _ => true
  | _ => false
  end.

(** Every file that [m] reads or tests satisfies [S]. *)
Definition touchesOnly {C A} (S : jsstring -> Prop) (m : M C A) : Prop :=
  forall fs st r st',
    m fs st = (r, st') ->
    exists extra,
      trace st' = trace st ++ extra
      /\ Forall (fun e => forall p, touched e = Some p -> S p) extra.

Definition statusOf (r : result response) : option N :=
  match r with
  | Ok resp => Some (status resp)
  | Throw => None
  end.

(** The handler [h] answers every request, and its guards are taken in
    order: method, sanitiser, resolver, existence, rendering. *)
Definition guardsInOrder {C A} (allowed : jsstring -> bool)
    (route : jsstring -> option jsstring)
    (build : jsstring -> jsstring -> M C A)
    (h : request -> M C response) : Prop :=
  forall req fs st,
    exists resp st',
      h req fs st = (Ok resp, st')
      /\ if negb (allowed (method req)) then status resp = 405 /\ st' = st
         else
           match sanitiseUrl (url req) with
           | None => status resp = 400 /\ st' = st
           | Some c =>
               match route c with
               | None => status resp = 403 /\ st' = st
               | Some f =>
                   if negb (existsSync fs f)
                   then status resp = 404 /\ st' = logged (EvExists f) st
                   else
                     match build c f fs (logged (EvExists f) st) with
                     | (Throw, s1) => status resp = 500 /\ st' = s1
                     | (Ok _, s1) =>
                         (status resp = 200 \/ status resp = 304) /\ st' = s1
                     end
               end
           end.

(** The part of the hardened [buildPage] after the cache check. *)
Definition render (E : Env) (route md : jsstring)
  : M Hardened.CacheEntry Hardened.CacheEntry :=
  let* rawHtml := Hardened.marked E md in
  let* htmlBody := Hardened.sanitize E (Hardened.pageOptions E) rawHtml in
  let title := routeName route in
  let* fullHtml := Hardened.renderTemplate E title htmlBody in
  let tag := [DQUOTE] ++ hashContent E fullHtml ++ [DQUOTE] in
  let result := {| Hardened.hash := hashContent E md;
                   Hardened.html := fullHtml;
                   Hardened.etag := tag |} in
  cache_set route result >>
  ret result.

(** The cache check of the hardened [buildPage]. *)
Definition isHit (o : option Hardened.CacheEntry) (h : jsstring) : bool :=
  match o with
  | Some c => streq (Hardened.hash c) h
  | None => false
  end.

(** The part of the legacy [buildPage] after the cache check. *)
Definition legacyRender (E : Env) (route md : jsstring)
  : M Legacy.CacheEntry jsstring :=
  let* htmlBody := Legacy.marked E md in
  let title := routeName route in
  let* fullHtml := Legacy.renderTemplate E title htmlBody in
  cache_set route {| Legacy.hash := hashContent E md; Legacy.html := fullHtml |} >>
  ret fullHtml.

(** The cache check of the legacy [buildPage]. *)
Definition legacyIsHit (o : option Legacy.CacheEntry) (h : jsstring) : bool :=
  match o with
  | Some c => streq (Legacy.hash c) h
  | None => false
  end.

(** The answers of the hardened server to a request it has a page for. *)
Definition notModified : response :=
  {| status := 304; resHeaders := []; body := [] |}.

Definition okPage (page : Hardened.CacheEntry) : response :=
  {| status := 200;
     resHeaders := Hardened.securityHeaders (Hardened.etag page);
     body := Hardened.html page |}.

Definition failed {A} (r : result A) : bool :=
  match r with
  | Ok _ => false
  | Throw => true
  end.

(** A failure of reading or rendering in the hardened [buildPage]: the
    source cannot be read, or it has to be rendered and the markdown
    converter or the sanitiser throws. *)
Definition renderFails (E : Env) (fs : FileSystem) (route filePath : jsstring)
    (st : state Hardened.CacheEntry) : bool :=
  match readFileSync fs filePath with
  | None => true
  | Some md =>
      negb (isHit (pageCache st !! route) (hashContent E md))
      && match marked_parse E md with
         | None => true
         | Some rawHtml =>
             match sanitizeHtml E (Hardened.pageOptions E) rawHtml with
             | None => true
             | Some _ => false
             end
         end
  end.

(** The same for the legacy [buildPage], which does not sanitise. *)
Definition legacyRenderFails (E : Env) (fs : FileSystem)
    (route filePath : jsstring) (st : state Legacy.CacheEntry) : bool :=
  match readFileSync fs filePath with
  | None => true
  | Some md =>
      negb (legacyIsHit (pageCache st !! route) (hashContent E md))
      && match marked_parse E md with
         | None => true
         | Some _ => false
         end
  end.

(** The two file systems agree on every path but [p]. *)
Definition agreeExcept (p : jsstring) (fs1 fs2 : FileSystem) : Prop :=
  forall q, q <> p ->
    existsSync fs2 q = existsSync fs1 q
    /\ readFileSync fs2 q = readFileSync fs1 q.

End Spec.

(** ** A small site

    The scenario of the specification: a content root with [index.md], a
    template with a title and a body, no navigation file.  The libraries are
    replaced by stand-ins. *)

Module Sample.
Import JS Path Eff Common.

Definition indexFile : jsstring := lit "/srv/markd/pages/index.md".

Definition E0 : Env :=
  {| dirname := lit "/srv/markd";
     cwd := lit "/srv/markd";
     template := lit "<title>{{title}}</title>{{content}}";
     COPYDATE := lit "2026";
     sha256hex := fun s => lit "sha256:" ++ s;
     marked_parse := fun md =>
       if streq md (lit "# Hi") then Some (lit "<h1>Hi</h1>")
       else Some (lit "<p>" ++ md ++ lit "</p>");
     sanitizeHtml := fun _ h => Some h;
     defaults_allowedTags := [lit "p"; lit "a"] |}.

Definition fs0 : FileSystem :=
  {| existsSync := fun p => streq p indexFile;
     readFileSync := fun p =>
       if streq p indexFile then Some (lit "# Hi") else None |}.

(** The same files with a navigation file added. *)
Definition fs1 : FileSystem :=
  {| existsSync := fun p =>
       streq p indexFile || streq p (lit "/srv/markd/nav.md");
     readFileSync := fun p =>
       if streq p indexFile then Some (lit "# Hi")
       else if streq p (lit "/srv/markd/nav.md") then Some (lit "[home](/)")
       else None |}.

(** A sibling of the content root whose name starts like it. *)
Definition fsEvil : FileSystem :=
  {| existsSync := fun p => streq p (lit "/srv/markd/pages-evil/x.md");
     readFileSync := fun p =>
       if streq p (lit "/srv/markd/pages-evil/x.md") then Some (lit "secret")
       else None |}.

(** The site with a navigation placeholder in its template. *)
Definition E1 : Env :=
  {| dirname := dirname E0;
     cwd := cwd E0;
     template := lit "<title>{{title}}</title><nav>{{nav}}</nav>{{content}}";
     COPYDATE := COPYDATE E0;
     sha256hex := sha256hex E0;
     marked_parse := marked_parse E0;
     sanitizeHtml := sanitizeHtml E0;
     defaults_allowedTags := defaults_allowedTags E0 |}.

(** The site with a template that uses the title twice. *)
Definition E2 : Env :=
  {| dirname := dirname E0;
     cwd := cwd E0;
     template := lit "<title>{{title}}</title><h1>{{title}}</h1>{{content}}";
     COPYDATE := COPYDATE E0;
     sha256hex := sha256hex E0;
     marked_parse := marked_parse E0;
     sanitizeHtml := sanitizeHtml E0;
     defaults_allowedTags := defaults_allowedTags E0 |}.

(** The site with a template without placeholders. *)
Definition E3 : Env :=
  {| dirname := dirname E0;
     cwd := cwd E0;
     template := lit "<html>closed for maintenance</html>";
     COPYDATE := COPYDATE E0;
     sha256hex := sha256hex E0;
     marked_parse := marked_parse E0;
     sanitizeHtml := sanitizeHtml E0;
     defaults_allowedTags := defaults_allowedTags E0 |}.

(** The site with a template that is the body alone. *)
Definition E4 : Env :=
  {| dirname := dirname E0;
     cwd := cwd E0;
     template := lit "{{content}}";
     COPYDATE := COPYDATE E0;
     sha256hex := sha256hex E0;
     marked_parse := marked_parse E0;
     sanitizeHtml := sanitizeHtml E0;
     defaults_allowedTags := defaults_allowedTags E0 |}.

Definition get (u : string) : request :=
  {| method := lit "GET"; url := lit u; headers := ∅ |}.

Definition getIfNoneMatch (u : string) (tag : jsstring) : request :=
  {| method := lit "GET"; url := lit u;
     headers := {[ lit "if-none-match" := tag ]} |}.

Definition fresh {C} : state C := {| pageCache := ∅; trace := [] |}.

Definition indexPage : Hardened.CacheEntry :=
  {| Hardened.hash := lit "sha256:# Hi";
     Hardened.html := lit "<title>index</title><h1>Hi</h1>";
     Hardened.etag :=
       Spec.quoted (lit "sha256:<title>index</title><h1>Hi</h1>") |}.

Definition warm : state Hardened.CacheEntry :=
  {| pageCache := {[ lit "/" := indexPage ]}; trace := [] |}.

Definition legacyIndexPage : Legacy.CacheEntry :=
  {| Legacy.hash := lit "sha256:# Hi";
     Legacy.html := lit "<title>index</title><h1>Hi</h1>" |}.

Definition legacyWarm : state Legacy.CacheEntry :=
  {| pageCache := {[ lit "/" := legacyIndexPage ]}; trace := [] |}.

End Sample.

(** ** Port derivation *)

Module Port.
Import JS Common.

(** One turn of the loop: [(hash * 31 + name.charCodeAt(i)) >>> 0].  The
    sum stays below 2^53, so it is exact, and [>>> 0] takes it modulo
    2^32. *)
Definition step (hash c : N) : N := (hash * 31 + c) mod 4294967296.

Definition derivePort (name : jsstring) : N :=
  let hash := fold_left step name 0 in
  10000 + hash mod 50000.

Definition PORT : N := derivePort SITE_NAME.

End Port.

(** ** Vocabulary of the further properties *)

Module Further.
Import JS Path Replace Eff Common Spec.

(** A segment as [normalizeString] keeps them: not empty and without a
    separator. *)
Definition segName (s : jsstring) : bool :=
  negb (is_empty s) && forallb (fun c => negb (c =? SLASH)) s.

(** The form of a route: it starts with a slash and, unless it is the root,
    does not end with one. *)
Definition isRoute (c : jsstring) : bool :=
  startsWith c (lit "/") && (negb (endsWith c (lit "/")) || streq c (lit "/")).

(** The placeholders of the template, and a template cut into literal text
    and placeholders. *)
Inductive hole : Type := Site | Author | Copydate | Title | Nav | Content.

Definition token (h : hole) : jsstring :=
  match h with
  | Site => lit "{{site}}"
  | Author => lit "{{author}}"
  | Copydate => lit "{{copydate}}"
  | Title => lit "{{title}}"
  | Nav => lit "{{nav}}"
  | Content => lit "{{content}}"
  end.

Inductive chunk : Type :=
| Text (t : jsstring)
| Hole (h : hole).

Definition chunkText (c : chunk) : jsstring :=
  match c with
  | Text t => t
  | Hole h => token h
  end.

Definition flatten (cs : list chunk) : jsstring :=
  concat (List.map chunkText cs).

(** A literal text of a template has no opening brace. *)
Definition plainChunk (c : chunk) : bool :=
  match c with
  | Text t => negb (existsb (N.eqb 123) t)
  | Hole _ => true
  end.

Definition hole_eqb (a b : hole) : bool :=
  match a, b with
  | Site, Site | Author, Author | Copydate, Copydate
  | Title, Title | Nav, Nav | Content, Content => true
  | _, _ => false
  end.

(** The chunks with the placeholder [h] filled by [v]. *)
Definition fillHole (h : hole) (v : jsstring) (c : chunk) : chunk :=
  match c with
  | Text t => Text t
  | Hole h' => if hole_eqb h h' then Text v else Hole h'
  end.

(** The value of each placeholder. *)
Definition holeValue (E : Env) (title nav content : jsstring) (h : hole)
  : jsstring :=
  match h with
  | Site => SITE_NAME
  | Author => AUTHOR
  | Copydate => COPYDATE E
  | Title => title
  | Nav => nav
  | Content => content
  end.

Definition filled (E : Env) (title nav content : jsstring) (c : chunk)
  : jsstring :=
  match c with
  | Text t => t
  | Hole h => holeValue E title nav content h
  end.

(** A value that can stand in a page before the later substitutions: no
    opening brace and no dollar sign. *)
Definition inert (v : jsstring) : bool :=
  negb (existsb (N.eqb 123) v) && negb (existsb (N.eqb DOLLAR) v).

(** [s] and [p] agree as far as both go. *)
Fixpoint agreesPrefix (s p : jsstring) : bool :=
  match p, s with
  | a :: p', b :: s' => (a =? b) && agreesPrefix s' p'
  | _, _ => true
  end.

(** No occurrence of [tok] begins inside [w], whatever follows [w]. *)
Fixpoint independent (w tok : jsstring) : bool :=
  match w with
  | [] => true
  | _ :: w' => negb (agreesPrefix w tok) && independent w' tok
  end.

(** An entry of the hardened cache that is the rendering of some source
    text for its route, with the ETag of its page. *)
Definition genuine (E : Env) (route : jsstring) (e : Hardened.CacheEntry)
  : Prop :=
  exists md rawHtml htmlBody nav,
    Hardened.hash e = hashContent E md
    /\ marked_parse E md = Some rawHtml
    /\ sanitizeHtml E (Hardened.pageOptions E) rawHtml = Some htmlBody
    /\ Hardened.html e = Hardened.substitute E (routeName route) nav htmlBody
    /\ Hardened.etag e = quoted (hashContent E (Hardened.html e)).

(** The invariant of the hardened cache: every key has the form of a route
    and every entry is genuine. *)
Definition cacheInv (E : Env) (st : state Hardened.CacheEntry) : Prop :=
  forall route e,
    pageCache st !! route = Some e ->
    isRoute route = true /\ genuine E route e.

(** The requests served one after the other, each with the files as they
    are when it arrives. *)
Fixpoint serve (E : Env) (reqs : list (request * FileSystem))
    (st : state Hardened.CacheEntry)
  : list (result response) * state Hardened.CacheEntry :=
  match reqs with
  | [] => ([], st)
  | (req, fs) :: rest =>
      let '(r, st1) := Hardened.handler E req fs st in
      let '(rs, st2) := serve E rest st1 in
      (r :: rs, st2)
  end.

(** The answers of the hardened server that carry no page. *)
Definition errorResponses : list response :=
  [Hardened.plain 405 [(lit "Content-Type", lit "text/plain; charset=utf-8")]
     "Method Not Allowed";
   Hardened.plain 400 [] "Bad Request";
   Hardened.plain 403 [] "Forbidden";
   Hardened.plain 404 [] "Not Found";
   Hardened.plain 500 [] "Internal Server Error"].

Definition withMethod (m : jsstring) (req : request) : request :=
  {| method := m; url := url req; headers := headers req |}.

End Further.

(** ** Facts about strings *)

Module StringFacts.
Import JS Path Replace Eff Common Spec.

Lemma streq_true a b : streq a b = true <-> a = b.
Proof. unfold streq. apply bool_decide_eq_true. Qed.

Lemma streq_false a b : streq a b = false <-> a <> b.
Proof. unfold streq. apply bool_decide_eq_false. Qed.

Lemma streq_refl a : streq a a = true.
Proof. by apply streq_true. Qed.

Section Split.
Variable c : N.

Lemma split_cons_ne x r :
  x <> c -> exists w ws, split c r = w :: ws /\ split c (x :: r) = (x :: w) :: ws.
Proof.
  intros Hx. simpl. apply N.eqb_neq in Hx. rewrite Hx.
  destruct (split c r) as [|w ws] eqn:Hs.
  - destruct r; simpl in Hs; [discriminate|].
    destruct (n =? c); [discriminate|]. destruct (split c r); discriminate.
  - eauto.
Qed.

Lemma split_not_nil s : split c s <> [].
Proof.
  destruct s as [|x r]; simpl; [discriminate|].
  destruct (x =? c); [discriminate|]. destruct (split c r); discriminate.
Qed.

Lemma split_app_sep a b : split c (a ++ c :: b) = split c a ++ split c b.
Proof.
  induction a as [|x a IH]; simpl.
  - by rewrite N.eqb_refl.
  - destruct (x =? c); [by rewrite IH|].
    rewrite IH. destruct (split c a) eqn:Ha; [by apply split_not_nil in Ha|].
    reflexivity.
Qed.

Lemma split_no_sep s : c ∉ s -> split c s = [s].
Proof.
  induction s as [|x r IH]; intros Hc; [reflexivity|].
  simpl. apply not_elem_of_cons in Hc as [Hx Hr].
  destruct (N.eqb_spec x c); [congruence|]. by rewrite IH.
Qed.

Lemma split_pieces s : Forall (fun w => c ∉ w) (split c s).
Proof.
  induction s as [|x r IH]; simpl.
  - repeat constructor. apply not_elem_of_nil.
  - destruct (N.eqb_spec x c).
    + constructor; [apply not_elem_of_nil | done].
    + destruct (split c r) as [|w ws]; [repeat constructor|].
      * by apply not_elem_of_cons; split; [|apply not_elem_of_nil].
      * inversion IH; subst. constructor; [|done].
        by apply not_elem_of_cons.
Qed.

Lemma split_join l :
  l <> [] -> Forall (fun w => c ∉ w) l -> split c (join [c] l) = l.
Proof.
  induction l as [|x r IH]; intros Hne Hl; [done|].
  inversion Hl as [|? ? Hx Hr]; subst.
  destruct r as [|y r'].
  - simpl. by apply split_no_sep.
  - change (join [c] (x :: y :: r')) with (x ++ c :: join [c] (y :: r')).
    rewrite split_app_sep, IH by done. by rewrite split_no_sep.
Qed.

Lemma hd_split_no_sep s : c ∉ s -> hd [] (split c s) = s.
Proof. intros H. by rewrite split_no_sep. Qed.

End Split.

Lemma join_cons_cons sp x y r : join sp (x :: y :: r) = x ++ sp ++ join sp (y :: r).
Proof. reflexivity. Qed.

Lemma join_concat sp a b :
  a <> [] -> b <> [] -> join sp (a ++ b) = join sp a ++ sp ++ join sp b.
Proof.
  induction a as [|x a IH]; intros Ha Hb; [done|].
  destruct a as [|y a'].
  - destruct b; [done|]. reflexivity.
  - change ((x :: y :: a') ++ b) with (x :: y :: (a' ++ b)).
    rewrite !join_cons_cons. change (y :: a' ++ b) with ((y :: a') ++ b).
    rewrite IH by done. by rewrite <- !app_assoc.
Qed.

Lemma properName_spec s :
  properName s = true <->
  s <> [] /\ s <> dot /\ s <> dotdot /\ SLASH ∉ s.
Proof.
  unfold properName. rewrite !andb_true_iff, !negb_true_iff, !streq_false.
  rewrite forallb_forall.
  split.
  - intros [[[H1 H2] H3] H4]. repeat split; try done.
    + by destruct s.
    + intros Hin. apply list_elem_of_In in Hin. apply H4 in Hin.
      by rewrite N.eqb_refl in Hin.
  - intros (H1 & H2 & H3 & H4). repeat split; try done.
    + by destruct s.
    + intros x Hx. apply negb_true_iff, N.eqb_neq. intros ->.
      by apply H4, list_elem_of_In.
Qed.

Lemma normalizeSegs_proper_step b s r res :
  properName s = true ->
  normalizeSegs b (s :: r) res = normalizeSegs b r (s :: res).
Proof.
  intros Hp. apply properName_spec in Hp as (H1 & H2 & H3 & _).
  simpl. destruct s as [|x s']; [done|]. simpl.
  apply streq_false in H2, H3. by rewrite H2, H3.
Qed.

Lemma normalizeSegs_proper_app b l r res :
  forallb properName l = true ->
  normalizeSegs b (l ++ r) res = normalizeSegs b r (rev l ++ res).
Proof.
  revert res. induction l as [|x l IH]; intros res Hl; [reflexivity|].
  simpl in Hl. apply andb_true_iff in Hl as [Hx Hl].
  change ((x :: l) ++ r) with (x :: (l ++ r)).
  rewrite normalizeSegs_proper_step, IH by done.
  simpl. by rewrite <- app_assoc.
Qed.

Lemma normalizeSegs_id b l :
  forallb properName l = true -> normalizeSegs b l [] = l.
Proof.
  intros Hl. rewrite <- (app_nil_r l) at 1.
  rewrite normalizeSegs_proper_app by done. simpl.
  by rewrite app_nil_r, rev_involutive.
Qed.

(** Without [allowAboveRoot] only proper names are kept. *)
Lemma normalizeSegs_keeps_proper segs res :
  Forall (fun w => SLASH ∉ w) segs ->
  forallb properName res = true ->
  forallb properName (normalizeSegs false segs res) = true.
Proof.
  revert res. induction segs as [|s r IH]; intros res Hs Hres.
  - simpl. rewrite forallb_forall in *. intros x Hx. apply Hres.
    by apply in_rev.
  - inversion Hs as [|? ? Hs1 Hs2]; subst. simpl.
    destruct (is_empty s || streq s dot) eqn:H1; [by apply IH|].
    destruct (streq s dotdot) eqn:H2.
    + destruct res as [|top below]; [by apply IH|].
      simpl in Hres. apply andb_true_iff in Hres as [Ht Hb].
      destruct (streq top dotdot) eqn:H3.
      * apply IH; [done|]. simpl. by rewrite Ht, Hb.
      * by apply IH.
    + apply IH; [done|]. simpl. rewrite Hres, andb_true_r.
      apply properName_spec. apply orb_false_iff in H1 as [H1a H1b].
      apply streq_false in H1b, H2. repeat split; try done.
      by destruct s.
Qed.

(** A proper last segment survives normalisation. *)
Lemma normalizeSegs_last b l x res :
  properName x = true ->
  normalizeSegs b (l ++ [x]) res = normalizeSegs b l res ++ [x].
Proof.
  intros Hx. revert res. induction l as [|s r IH]; intros res.
  - simpl app. rewrite normalizeSegs_proper_step by done. reflexivity.
  - simpl.
    destruct (is_empty s || streq s dot); [apply IH|].
    destruct (streq s dotdot); [|apply IH].
    destruct res as [|top below]; [apply IH|].
    destruct (streq top dotdot); apply IH.
Qed.

(** Empty segments are skipped. *)
Lemma normalizeSegs_nil_r b l res :
  normalizeSegs b (l ++ [[]]) res = normalizeSegs b l res.
Proof.
  revert res. induction l as [|s r IH]; intros res; [reflexivity|].
  simpl.
  destruct (is_empty s || streq s dot); [apply IH|].
  destruct (streq s dotdot); [|apply IH].
  destruct res as [|top below]; [apply IH|].
  destruct (streq top dotdot); apply IH.
Qed.

End StringFacts.

(** ** Facts about paths *)

Module PathFacts.
Import JS Path Replace Eff Common Spec StringFacts.

Lemma startsWith_app p r : startsWith (p ++ r) p = true.
Proof. induction p as [|a p IH]; [by destruct r|]. simpl. by rewrite N.eqb_refl. Qed.

Lemma startsWith_spec s p : startsWith s p = true <-> exists r, s = p ++ r.
Proof.
  split.
  - revert s. induction p as [|a p IH]; intros s H; [by exists s|].
    destruct s as [|b s]; [done|]. simpl in H.
    apply andb_true_iff in H as [H1 H2]. apply N.eqb_eq in H1 as ->.
    destruct (IH _ H2) as [r ->]. by exists r.
  - intros [r ->]. apply startsWith_app.
Qed.

Lemma join_cons sp x r : exists t, join sp (x :: r) = x ++ t.
Proof. destruct r; [exists []; simpl; by rewrite app_nil_r | by eexists]. Qed.

Lemma join_proper_not_nil l :
  l <> [] -> forallb properName l = true -> join sep l <> [].
Proof.
  destruct l as [|x r]; [done|]. intros _ H. simpl in H.
  apply andb_true_iff in H as [Hx _]. apply properName_spec in Hx as [Hx _].
  destruct (join_cons sep x r) as [t ->]. by destruct x.
Qed.

Lemma forallb_proper_no_slash l :
  forallb properName l = true -> Forall (fun w => SLASH ∉ w) l.
Proof.
  rewrite forallb_forall, Forall_forall. intros H x Hx.
  apply list_elem_of_In, H, properName_spec in Hx. tauto.
Qed.

Lemma is_empty_true s : is_empty s = true <-> s = [].
Proof. by destruct s. Qed.

Lemma is_empty_false s : is_empty s = false <-> s <> [].
Proof. by destruct s. Qed.

(** Splitting a path made of proper names gives the names back. *)
Lemma split_resolved C :
  forallb properName C = true ->
  normalizeSegs false (split SLASH (sep ++ join sep C ++ sep)) [] = C.
Proof.
  intros HC. unfold sep at 1. simpl app at 1. cbn [split]. rewrite N.eqb_refl.
  unfold sep. rewrite split_app_sep. simpl (split SLASH []).
  change ([] :: ?l) with ([[]] ++ l).
  rewrite app_assoc, normalizeSegs_nil_r.
  simpl app. cbn [normalizeSegs is_empty orb].
  destruct C as [|x r]; [reflexivity|].
  rewrite split_join; [|done|by apply forallb_proper_no_slash].
  by apply normalizeSegs_id.
Qed.

Lemma segments_resolved C :
  forallb properName C = true -> segments (sep ++ join sep C) = C.
Proof.
  intros HC. unfold segments. simpl tl.
  destruct C as [|x r]; [reflexivity|].
  destruct (join sep (x :: r)) eqn:Hj.
  - by apply join_proper_not_nil in Hj.
  - rewrite <- Hj. apply split_join; [done|by apply forallb_proper_no_slash].
Qed.

Lemma isAbsolute_cons p : isAbsolute (sep ++ p) = true.
Proof. apply startsWith_app. Qed.

Lemma isAbsolute_not_empty p : isAbsolute p = true -> is_empty p = false.
Proof. by destruct p. Qed.

Lemma resolveLoop_abs p r acc :
  isAbsolute p = true -> resolveLoop (p :: r) acc = (p ++ sep ++ acc, true).
Proof.
  intros Hp. cbn [resolveLoop]. by rewrite (isAbsolute_not_empty _ Hp), Hp.
Qed.

Lemma resolveLoop_rel p r acc :
  is_empty p = false -> isAbsolute p = false ->
  resolveLoop (p :: r) acc = resolveLoop r (p ++ sep ++ acc).
Proof. intros H1 H2. cbn [resolveLoop]. by rewrite H1, H2. Qed.

(** Resolving an absolute path of proper names changes nothing. *)
Lemma resolve_resolved cw C :
  forallb properName C = true ->
  resolve cw [sep ++ join sep C] = sep ++ join sep C.
Proof.
  intros HC. unfold resolve. cbn [rev app].
  rewrite resolveLoop_abs by apply isAbsolute_cons.
  cbn [negb]. unfold normalizeString.
  rewrite app_nil_r, <- app_assoc. by rewrite split_resolved.
Qed.

Lemma commonPrefix_le a b : (commonPrefix a b <= length a)%nat.
Proof.
  revert b. induction a as [|x a IH]; intros [|y b]; simpl; try lia.
  destruct (streq x y); [|lia]. specialize (IH b). lia.
Qed.

Lemma commonPrefix_take a b : take (commonPrefix a b) b = take (commonPrefix a b) a.
Proof.
  revert b. induction a as [|x a IH]; intros [|y b]; simpl; try done.
  destruct (streq x y) eqn:Hxy; [|done].
  apply streq_true in Hxy as ->. simpl. by rewrite IH.
Qed.

(** When [relative] does not climb, the target lies under the base. *)
Lemma relative_no_climb cw P C :
  forallb properName P = true -> forallb properName C = true ->
  sep ++ join sep P <> sep ++ join sep C ->
  startsWith (relative cw (sep ++ join sep P) (sep ++ join sep C)) (lit "..")
    = false ->
  exists rest, rest <> [] /\ C = P ++ rest.
Proof.
  intros HP HC Hne Hrel. unfold relative in Hrel.
  apply streq_false in Hne. rewrite Hne in Hrel.
  rewrite !resolve_resolved, Hne, !segments_resolved in Hrel by done.
  pose proof (commonPrefix_le P C) as Hle.
  pose proof (commonPrefix_take P C) as Htk.
  destruct (decide (commonPrefix P C = length P)) as [Hk|Hk].
  - rewrite Hk in Htk. rewrite firstn_all in Htk.
    exists (drop (length P) C). split.
    + intros Hd. apply streq_false in Hne. apply Hne.
      assert (C = P) as ->; [|done].
      by rewrite <- (take_drop (length P) C), Hd, Htk, app_nil_r.
    + transitivity (take (length P) C ++ drop (length P) C);
        [by rewrite take_drop | by rewrite Htk].
  - exfalso.
    destruct (length P - commonPrefix P C)%nat as [|n] eqn:Hd; [lia|].
    simpl repeat in Hrel. simpl app in Hrel.
    destruct (join_cons sep dotdot (repeat dotdot n ++ drop (commonPrefix P C) C))
      as [t Ht].
    rewrite Ht in Hrel. change (lit "..") with dotdot in Hrel.
    by rewrite (startsWith_app dotdot t) in Hrel.
Qed.

Lemma split_app_no_sep c a b :
  c ∉ b ->
  exists Y l, split c a = Y ++ [l] /\ split c (a ++ b) = Y ++ [l ++ b].
Proof.
  intros Hb. induction a as [|x a (Y & l & H1 & H2)].
  - exists [], []. split; [done|]. by apply split_no_sep.
  - simpl. destruct (x =? c).
    + exists ([] :: Y), l. by rewrite H1, H2.
    + rewrite H1, H2. destruct Y as [|w Y]; simpl.
      * by exists [], (x :: l).
      * by exists ((x :: w) :: Y), l.
Qed.

Lemma forallb_app_proper a b :
  forallb properName (a ++ b) = forallb properName a && forallb properName b.
Proof. apply forallb_app. Qed.

Lemma md_proper l : SLASH ∉ l -> properName (l ++ lit ".md") = true.
Proof.
  intros Hl. apply properName_spec. repeat split.
  - by destruct l.
  - intros H. apply (f_equal length) in H. rewrite length_app in H.
    simpl in H. lia.
  - intros H. apply (f_equal length) in H. rewrite length_app in H.
    simpl in H. lia.
  - intros H. apply elem_of_app in H as [H|H]; [done|].
    apply list_elem_of_In in H. simpl in H. intuition discriminate.
Qed.

Lemma md_not_pages l : l ++ lit ".md" <> lit "pages".
Proof.
  intros H. apply (f_equal (@rev N)) in H. rewrite rev_app_distr in H.
  vm_compute in H. discriminate.
Qed.

Lemma pages_proper : properName (lit "pages") = true.
Proof. reflexivity. Qed.

Lemma split_sep_cons s : split SLASH (sep ++ s) = [] :: split SLASH s.
Proof. reflexivity. Qed.

Lemma pjoin_two a b :
  is_empty a = false -> is_empty b = false ->
  pjoin [a; b] = normalize (a ++ sep ++ b).
Proof. intros Ha Hb. unfold pjoin. simpl. by rewrite Ha, Hb. Qed.


End PathFacts.

(** ** The sanitiser *)

Module Sanitiser.
Import JS Path Replace Eff Common Spec StringFacts PathFacts.

Lemma unescape_no_percent s :
  PERCENT ∉ s -> unescape s = Some (map Lit s).
Proof.
  induction s as [|c r IH]; intros H; [reflexivity|].
  apply not_elem_of_cons in H as [Hc Hr]. cbn [unescape].
  destruct (N.eqb_spec c PERCENT); [congruence|]. by rewrite IH.
Qed.

Lemma utf8_literals s : utf8 (map Lit s) = Some s.
Proof. induction s as [|c r IH]; [reflexivity|]. simpl. by rewrite IH. Qed.

Lemma decode_no_percent s : PERCENT ∉ s -> decodeURIComponent s = Some s.
Proof.
  intros H. unfold decodeURIComponent.
  rewrite unescape_no_percent by done. apply utf8_literals.
Qed.

Lemma decode_absolute s d :
  isAbsolute s = true -> decodeURIComponent s = Some d -> isAbsolute d = true.
Proof.
  intros Hs. apply startsWith_spec in Hs as [r ->].
  unfold decodeURIComponent. change (sep ++ r) with (SLASH :: r).
  cbn [unescape]. change (SLASH =? PERCENT) with false. cbn iota.
  destruct (unescape r) as [ts|]; [|done]. cbn [utf8].
  destruct (utf8 ts) as [o|]; [|done]. intros [= <-]. reflexivity.
Qed.

Lemma hd_split_absolute c s :
  c <> SLASH -> isAbsolute s = true -> isAbsolute (hd [] (split c s)) = true.
Proof.
  intros Hc Hs. apply startsWith_spec in Hs as [r ->].
  change (sep ++ r) with (SLASH :: r).
  destruct (split_cons_ne c SLASH r) as (w & ws & _ & ->); [done|].
  reflexivity.
Qed.

Lemma sanitiseUrl_unfold u :
  sanitiseUrl u =
  match decodeURIComponent (hd [] (split HASH (hd [] (split QMARK u)))) with
  | Some d => Some (finish d)
  | None => None
  end.
Proof. reflexivity. Qed.

Lemma join_snoc sp l x : exists t, join sp (l ++ [x]) = t ++ x.
Proof.
  induction l as [|y l [t IH]]; [by exists []|].
  destruct l as [|z l'].
  - exists (y ++ sp). simpl. by rewrite <- app_assoc.
  - exists (y ++ sp ++ t). change ((y :: z :: l') ++ [x]) with (y :: z :: (l' ++ [x])).
    rewrite join_cons_cons. change (z :: l' ++ [x]) with ((z :: l') ++ [x]).
    rewrite IH. by rewrite <- !app_assoc.
Qed.

Lemma endsWith_join_proper C :
  C <> [] -> forallb properName C = true ->
  endsWith (sep ++ join sep C) sep = false.
Proof.
  intros Hne HC.
  destruct (exists_last Hne) as (C' & x & ->).
  rewrite forallb_app in HC. apply andb_true_iff in HC as [_ Hx].
  simpl in Hx. rewrite andb_true_r in Hx.
  apply properName_spec in Hx as (Hx1 & _ & _ & Hx4).
  destruct (join_snoc sep C' x) as [t ->].
  destruct (exists_last Hx1) as (x' & c & ->).
  unfold endsWith. rewrite !rev_app_distr. cbn [rev app sep startsWith].
  destruct (N.eqb_spec SLASH c) as [<-|]; [|done].
  exfalso. apply Hx4. apply elem_of_app. right. by apply list_elem_of_singleton.
Qed.

Lemma finish_absolute d :
  isAbsolute d = true ->
  finish d = sep ++ join sep (normalizeSegs false (split SLASH d) []).
Proof.
  intros Hd.
  assert (HC : forallb properName (normalizeSegs false (split SLASH d) []) = true)
    by (apply normalizeSegs_keeps_proper; [apply split_pieces|done]).
  unfold finish, normalize, normalizeString.
  rewrite (isAbsolute_not_empty _ Hd), Hd. cbn [negb].
  set (C := normalizeSegs false (split SLASH d) []) in *.
  destruct C as [|x r] eqn:HCeq; [reflexivity|].
  rewrite <- HCeq in *. assert (Hne : C <> []) by (by rewrite HCeq).
  clear HCeq.
  pose proof (join_proper_not_nil C Hne HC) as Hj.
  apply is_empty_false in Hj. rewrite Hj.
  change (lit "/") with sep.
  destruct (endsWith d sep).
  - rewrite startsWith_app.
    assert (He : endsWith (sep ++ join sep C ++ sep) sep = true).
    { unfold endsWith. rewrite !rev_app_distr. reflexivity. }
    rewrite He. clear He.
    assert (Hs : streq (sep ++ join sep C ++ sep) sep = false).
    { apply streq_false. intros H. apply (f_equal length) in H.
      rewrite !length_app in H. simpl in H. lia. }
    rewrite Hs. cbn [negb andb]. unfold slice_0_m1.
    replace (sep ++ join sep C ++ sep) with ((sep ++ join sep C) ++ [SLASH])
      by (by rewrite <- app_assoc).
    rewrite removelast_last.
    by destruct (streq (sep ++ join sep C) []) eqn:Hn; [apply streq_true in Hn|].
  - rewrite startsWith_app, endsWith_join_proper by done. cbn [andb].
    by destruct (streq (sep ++ join sep C) []) eqn:Hn; [apply streq_true in Hn|].
Qed.

Lemma sanitiseUrl_not_empty u c : sanitiseUrl u = Some c -> c <> [].
Proof.
  rewrite sanitiseUrl_unfold.
  destruct (decodeURIComponent _) as [d|]; [|done].
  intros [= <-]. unfold finish.
  match goal with |- (if streq ?x [] then _ else _) <> [] =>
    destruct (streq x []) eqn:Hx; [done|by apply streq_false in Hx] end.
Qed.

Lemma sanitiseUrl_fixpoint p q :
  isAbsolute p = true ->
  sanitiseUrl p = Some q ->
  PERCENT ∉ q -> QMARK ∉ q -> HASH ∉ q ->
  sanitiseUrl q = Some q.
Proof.
  intros Hp Hq H1 H2 H3. rewrite sanitiseUrl_unfold in Hq.
  destruct (decodeURIComponent _) as [d|] eqn:Hd; [|done].
  injection Hq as Hq.
  assert (Hda : isAbsolute d = true).
  { eapply decode_absolute; [|exact Hd].
    apply hd_split_absolute; [done|]. by apply hd_split_absolute. }
  rewrite finish_absolute in Hq by done.
  set (C := normalizeSegs false (split SLASH d) []) in *.
  assert (HC : forallb properName C = true)
    by (apply normalizeSegs_keeps_proper; [apply split_pieces|done]).
  rewrite sanitiseUrl_unfold.
  rewrite (hd_split_no_sep QMARK q), (hd_split_no_sep HASH q) by done.
  rewrite decode_no_percent by done. f_equal.
  subst q. rewrite finish_absolute by apply isAbsolute_cons.
  rewrite split_sep_cons. cbn [normalizeSegs is_empty orb].
  destruct C as [|x r]; [reflexivity|].
  rewrite split_join; [|done|by apply forallb_proper_no_slash].
  by rewrite normalizeSegs_id.
Qed.

End Sanitiser.

(** ** The resolver of the hardened server *)

Module Resolver.
Import JS Path Replace Eff Common Spec StringFacts PathFacts.

Section Route.
Variable E : Env.
Hypothesis Habs : isAbsolute (dirname E) = true.

(** A child of the directory of the server: its segments are those of the
    directory followed by the name of the child. *)
Lemma child_shape name :
  properName name = true ->
  pjoin [dirname E; name]
  = sep ++ join sep (normalizeSegs false (split SLASH (dirname E)) [] ++ [name]).
Proof.
  intros Hname. destruct (proj1 (properName_spec name) Hname) as (Hn1 & _ & _ & Hn4).
  rewrite pjoin_two; [|by apply isAbsolute_not_empty|by apply is_empty_false].
  unfold normalize.
  assert (Hne : is_empty (dirname E ++ sep ++ name) = false).
  { destruct (dirname E); [done|reflexivity]. }
  rewrite Hne.
  assert (Ha : isAbsolute (dirname E ++ sep ++ name) = true).
  { apply startsWith_spec in Habs as [r ->]. rewrite <- app_assoc.
    apply isAbsolute_cons. }
  rewrite Ha. cbn [negb].
  assert (Ht : endsWith (dirname E ++ sep ++ name) sep = false).
  { destruct (exists_last Hn1) as (n' & c & ->).
    unfold endsWith. rewrite !rev_app_distr. cbn [rev app sep startsWith].
    destruct (N.eqb_spec SLASH c) as [<-|]; [|done].
    exfalso. apply Hn4, elem_of_app. right. by apply list_elem_of_singleton. }
  rewrite Ht. unfold normalizeString.
  change (dirname E ++ sep ++ name) with (dirname E ++ SLASH :: name).
  rewrite split_app_sep, (split_no_sep SLASH name) by done.
  rewrite normalizeSegs_last by done.
  set (P0 := normalizeSegs false (split SLASH (dirname E)) []).
  destruct (is_empty (join sep (P0 ++ [name]))) eqn:Hq; [|done].
  exfalso. apply is_empty_true in Hq. revert Hq.
  apply join_proper_not_nil; [by destruct P0|].
  rewrite forallb_app_proper. apply andb_true_iff. split.
  - apply normalizeSegs_keeps_proper; [apply split_pieces|done].
  - cbn [forallb]. by rewrite Hname.
Qed.

Lemma pagesDir_shape :
  exists P0, forallb properName P0 = true
             /\ pagesDir E = sep ++ join sep (P0 ++ [lit "pages"]).
Proof.
  exists (normalizeSegs false (split SLASH (dirname E)) []). split.
  - apply normalizeSegs_keeps_proper; [apply split_pieces|done].
  - apply child_shape, pages_proper.
Qed.

(** The navigation file is a sibling of the content root, not a file below
    it. *)
Lemma navFile_outside_root :
  insideRoot (pagesDir E) (Hardened.navFile E) = false.
Proof.
  unfold insideRoot.
  destruct (startsWith (Hardened.navFile E) (pagesDir E ++ sep)) eqn:Hs; [|done].
  exfalso. apply startsWith_spec in Hs as [r Hr]. revert Hr.
  unfold Hardened.navFile, pagesDir. rewrite !child_shape by reflexivity.
  set (P0 := normalizeSegs false (split SLASH (dirname E)) []).
  assert (HP0 : forallb properName P0 = true)
    by (apply normalizeSegs_keeps_proper; [apply split_pieces|done]).
  intros Hr. rewrite <- !app_assoc in Hr. apply app_inv_head in Hr.
  destruct P0 as [|x P0'].
  - vm_compute in Hr. discriminate.
  - rewrite !(join_concat sep (x :: P0')) in Hr by done.
    rewrite <- !app_assoc in Hr. do 2 apply app_inv_head in Hr.
    vm_compute in Hr. discriminate.
Qed.

Lemma candidate_shape x :
  exists C0 l,
    forallb properName (C0 ++ [l ++ lit ".md"]) = true
    /\ resolve (cwd E) [pagesDir E; x ++ lit ".md"]
       = sep ++ join sep (C0 ++ [l ++ lit ".md"]).
Proof.
  destruct pagesDir_shape as (P0 & HP0 & HP).
  assert (Hmd : SLASH ∉ lit ".md").
  { intros H. apply list_elem_of_In in H. simpl in H. intuition discriminate. }
  destruct (split_app_no_sep SLASH x (lit ".md") Hmd) as (Y & l & HY1 & HY2).
  assert (Hl : SLASH ∉ l).
  { pose proof (split_pieces SLASH x) as Hs. rewrite HY1 in Hs.
    apply Forall_app in Hs as [_ Hs]. by inversion Hs. }
  assert (Hxne : is_empty (x ++ lit ".md") = false) by by destruct x.
  unfold resolve. cbn [rev app].
  destruct (isAbsolute (x ++ lit ".md")) eqn:Hx.
  - rewrite resolveLoop_abs by done. cbn [negb]. unfold normalizeString.
    rewrite app_nil_r.
    change ((x ++ lit ".md") ++ sep) with ((x ++ lit ".md") ++ SLASH :: []).
    rewrite split_app_sep, HY2. simpl (split SLASH []).
    rewrite normalizeSegs_nil_r, normalizeSegs_last by by apply md_proper.
    eexists _, l. split; [|reflexivity].
    rewrite forallb_app_proper. apply andb_true_iff. split.
    + apply normalizeSegs_keeps_proper; [|done].
      pose proof (split_pieces SLASH x) as Hs. rewrite HY1 in Hs.
      by apply Forall_app in Hs as [Hs _].
    + simpl. by rewrite md_proper.
  - rewrite resolveLoop_rel by done.
    assert (Hpa : isAbsolute (pagesDir E) = true)
      by (rewrite HP; apply isAbsolute_cons).
    rewrite resolveLoop_abs by done. cbn [negb]. unfold normalizeString.
    rewrite app_nil_r, HP.
    assert (HPp : forallb properName (P0 ++ [lit "pages"]) = true).
    { rewrite forallb_app_proper, HP0. reflexivity. }
    set (P := P0 ++ [lit "pages"]) in *.
    replace ((sep ++ join sep P) ++ sep ++ (x ++ lit ".md") ++ sep)
      with (sep ++ (join sep P ++ SLASH :: (x ++ lit ".md") ++ SLASH :: []))
      by (unfold sep; by rewrite <- !app_assoc).
    rewrite split_sep_cons, !split_app_sep, HY2. simpl (split SLASH []).
    rewrite split_join;
      [|by subst P; destruct P0|by apply forallb_proper_no_slash].
    cbn [normalizeSegs is_empty orb].
    rewrite app_assoc, normalizeSegs_nil_r, app_assoc.
    rewrite normalizeSegs_last by by apply md_proper.
    eexists _, l. split; [|reflexivity].
    rewrite forallb_app_proper. apply andb_true_iff. split.
    + apply normalizeSegs_keeps_proper; [|done].
      apply Forall_app. split; [by apply forallb_proper_no_slash|].
      pose proof (split_pieces SLASH x) as Hs. rewrite HY1 in Hs.
      by apply Forall_app in Hs as [Hs _].
    + simpl. by rewrite md_proper.
Qed.

Lemma last_snoc_inj {A} (a b : list A) x y : a ++ [x] = b ++ [y] -> x = y.
Proof. intros H. by apply app_inj_tail in H as [_ ->]. Qed.

Lemma insideRoot_intro root rest :
  forallb properName rest = true -> rest <> [] ->
  insideRoot root (root ++ sep ++ join sep rest) = true.
Proof.
  intros Hr Hne. unfold insideRoot. apply andb_true_iff. split.
  - rewrite app_assoc. apply startsWith_app.
  - rewrite app_assoc, drop_app_length'.
    + rewrite split_join; [done|done|by apply forallb_proper_no_slash].
    + rewrite length_app. simpl. lia.
Qed.

(** What the hardened resolver returns lies strictly below the content
    root. *)
Lemma routeToFile_inside cleanPath f :
  Hardened.routeToFile E cleanPath = Some f ->
  insideRoot (pagesDir E) f = true.
Proof.
  unfold Hardened.routeToFile. intros H.
  destruct (candidate_shape (routeName cleanPath)) as (C0 & l & HC & Hcand).
  destruct pagesDir_shape as (P0 & HP0 & HP).
  rewrite Hcand in H.
  destruct (startsWith _ (lit "..") || _) eqn:Hchk; [discriminate|].
  injection H as <-.
  apply orb_false_iff in Hchk as [Hchk _].
  rewrite HP in Hchk |- *.
  assert (HPp : forallb properName (P0 ++ [lit "pages"]) = true).
  { rewrite forallb_app_proper, HP0. reflexivity. }
  apply relative_no_climb in Hchk as (rest & Hrest & HCeq); [|done|done|].
  - rewrite HCeq.
    rewrite (join_concat sep (P0 ++ [lit "pages"]) rest); [|by destruct P0|done].
    change (SLASH :: ?a ++ ?b) with ((sep ++ a) ++ b).
    apply insideRoot_intro; [|done].
    rewrite HCeq, forallb_app_proper in HC.
    by apply andb_true_iff in HC as [_ HC].
  - intros Heq. apply app_inv_head in Heq.
    apply (f_equal (split SLASH)) in Heq.
    rewrite !split_join in Heq;
      [|by destruct C0|by apply forallb_proper_no_slash
       |by destruct P0|by apply forallb_proper_no_slash].
    apply last_snoc_inj in Heq. symmetry in Heq. by apply md_not_pages in Heq.
Qed.

End Route.

End Resolver.

(** ** The page cache *)

Module Cache.
Import JS Path Replace Eff Common Spec StringFacts.

Ltac unfold_eff :=
  unfold bind, ret, try_catch, log, lift, fs_existsSync, fs_readFileSync,
    cache_get, cache_set in *.

Section Hard.
Variable E : Env.

(** The navigation block never fails and leaves the cache alone. *)
Lemma buildNav_total fs (st : state Hardened.CacheEntry) :
  exists nav tr,
    Hardened.buildNav E fs st
    = (Ok nav, {| pageCache := pageCache st; trace := tr |}).
Proof.
  unfold Hardened.buildNav, Hardened.marked, Hardened.sanitize.
  unfold_eff. simpl.
  destruct (existsSync fs _); simpl; [|eauto].
  destruct (readFileSync fs _); simpl; [|eauto].
  destruct (marked_parse E _); simpl; [|eauto].
  destruct (sanitizeHtml E _ _); simpl; eauto.
Qed.

Lemma buildPage_unfold fs route filePath (st : state Hardened.CacheEntry) :
  Hardened.buildPage E route filePath fs st =
  match readFileSync fs filePath with
  | None => (Throw, logged (EvRead filePath) st)
  | Some md =>
      match pageCache st !! route with
      | Some c =>
          if streq (Hardened.hash c) (hashContent E md)
          then (Ok c, logged (EvRead filePath) st)
          else render E route md fs (logged (EvRead filePath) st)
      | None => render E route md fs (logged (EvRead filePath) st)
      end
  end.
Proof.
  unfold Hardened.buildPage. unfold bind at 1. unfold fs_readFileSync at 1.
  fold (logged (EvRead filePath) st).
  destruct (readFileSync fs filePath) as [md|]; [|reflexivity].
  unfold bind at 1. unfold cache_get at 1. cbn [pageCache logged].
  destruct (pageCache st !! route) as [c|]; [|reflexivity].
  by destruct (streq (Hardened.hash c) (hashContent E md)).
Qed.

Lemma render_ok fs route md (st st' : state Hardened.CacheEntry) page :
  render E route md fs st = (Ok page, st') ->
  exists rawHtml htmlBody nav,
    marked_parse E md = Some rawHtml
    /\ sanitizeHtml E (Hardened.pageOptions E) rawHtml = Some htmlBody
    /\ Hardened.html page = Hardened.substitute E (routeName route) nav htmlBody
    /\ Hardened.hash page = hashContent E md
    /\ Hardened.etag page = quoted (hashContent E (Hardened.html page))
    /\ pageCache st' = <[route := page]> (pageCache st).
Proof.
  unfold render, Hardened.renderTemplate, Hardened.marked, Hardened.sanitize.
  unfold_eff. cbn [pageCache trace].
  destruct (marked_parse E md) as [rawHtml|]; [|done].
  destruct (sanitizeHtml E _ rawHtml) as [htmlBody|] eqn:Hs; [|done].
  match goal with |- context [Hardened.buildNav E fs ?s] =>
    destruct (buildNav_total fs s) as (nav & tr & ->) end.
  cbn [pageCache trace]. intros Heq. inversion Heq; subst; clear Heq.
  cbn [pageCache Hardened.html Hardened.hash Hardened.etag].
  by exists rawHtml, htmlBody, nav.
Qed.

Lemma buildPage_hit fs route filePath md (st : state Hardened.CacheEntry) c :
  readFileSync fs filePath = Some md ->
  pageCache st !! route = Some c ->
  Hardened.hash c = hashContent E md ->
  Hardened.buildPage E route filePath fs st
  = (Ok c, logged (EvRead filePath) st).
Proof.
  intros Hr Hc Hh. rewrite buildPage_unfold, Hr, Hc.
  apply streq_true in Hh. by rewrite Hh.
Qed.

(** What a successful [buildPage] has done: either the cached entry was
    returned, or an entry built from this reading of the source was stored
    and returned. *)
Lemma buildPage_ok fs route filePath (st st' : state Hardened.CacheEntry) page :
  Hardened.buildPage E route filePath fs st = (Ok page, st') ->
  exists md,
    readFileSync fs filePath = Some md /\
    ((isHit (pageCache st !! route) (hashContent E md) = true
      /\ pageCache st !! route = Some page
      /\ Hardened.hash page = hashContent E md
      /\ st' = logged (EvRead filePath) st)
     \/
     (isHit (pageCache st !! route) (hashContent E md) = false
      /\ exists rawHtml htmlBody nav,
          marked_parse E md = Some rawHtml
          /\ sanitizeHtml E (Hardened.pageOptions E) rawHtml = Some htmlBody
          /\ Hardened.html page
             = Hardened.substitute E (routeName route) nav htmlBody
          /\ Hardened.hash page = hashContent E md
          /\ Hardened.etag page = quoted (hashContent E (Hardened.html page))
          /\ pageCache st' = <[route := page]> (pageCache st))).
Proof.
  rewrite buildPage_unfold.
  destruct (readFileSync fs filePath) as [md|]; [|done].
  intros Hb. exists md. split; [done|].
  destruct (pageCache st !! route) as [c|]; cbn [isHit].
  - destruct (streq (Hardened.hash c) (hashContent E md)) eqn:Hh.
    + left. apply streq_true in Hh. injection Hb as Hp Hs. by subst.
    + right. split; [done|]. by apply render_ok in Hb.
  - right. split; [done|]. by apply render_ok in Hb.
Qed.

Lemma render_failed fs route md (st : state Hardened.CacheEntry) :
  failed (fst (render E route md fs st))
  = match marked_parse E md with
    | None => true
    | Some rawHtml =>
        match sanitizeHtml E (Hardened.pageOptions E) rawHtml with
        | None => true
        | Some _ => false
        end
    end.
Proof.
  unfold render, Hardened.renderTemplate, Hardened.marked, Hardened.sanitize.
  unfold_eff. cbn [pageCache trace].
  destruct (marked_parse E md) as [rawHtml|]; [|done].
  destruct (sanitizeHtml E _ rawHtml) as [htmlBody|]; [|done].
  match goal with |- context [Hardened.buildNav E fs ?s] =>
    destruct (buildNav_total fs s) as (nav & tr & ->) end.
  reflexivity.
Qed.

Lemma buildPage_failed fs route filePath (st : state Hardened.CacheEntry) :
  failed (fst (Hardened.buildPage E route filePath fs st))
  = renderFails E fs route filePath st.
Proof.
  rewrite buildPage_unfold. unfold renderFails.
  destruct (readFileSync fs filePath) as [md|]; [|done].
  destruct (pageCache st !! route) as [c|]; cbn [isHit].
  - destruct (streq (Hardened.hash c) (hashContent E md)); [done|].
    apply render_failed.
  - apply render_failed.
Qed.

(** After a successful [buildPage] the route is cached under the hash of
    the source that was read. *)
Lemma buildPage_cached fs route filePath (st st' : state Hardened.CacheEntry) page :
  Hardened.buildPage E route filePath fs st = (Ok page, st') ->
  exists md,
    readFileSync fs filePath = Some md
    /\ pageCache st' !! route = Some page
    /\ Hardened.hash page = hashContent E md.
Proof.
  intros Hb. apply buildPage_ok in Hb as (md & Hr & [H|H]).
  - destruct H as (_ & Hc & Hh & Hs). subst st'. by exists md.
  - destruct H as (_ & rawHtml & htmlBody & nav & _ & _ & _ & Hh & _ & Hc).
    exists md. rewrite Hc. by rewrite lookup_insert_eq.
Qed.

End Hard.

Section Leg.
Variable E : Env.

Lemma legacy_buildPage_unfold fs route filePath (st : state Legacy.CacheEntry) :
  Legacy.buildPage E route filePath fs st =
  match readFileSync fs filePath with
  | None => (Throw, logged (EvRead filePath) st)
  | Some md =>
      match pageCache st !! route with
      | Some c =>
          if streq (Legacy.hash c) (hashContent E md)
          then (Ok (Legacy.html c), logged (EvRead filePath) st)
          else legacyRender E route md fs (logged (EvRead filePath) st)
      | None => legacyRender E route md fs (logged (EvRead filePath) st)
      end
  end.
Proof.
  unfold Legacy.buildPage. unfold bind at 1. unfold fs_readFileSync at 1.
  fold (logged (EvRead filePath) st).
  destruct (readFileSync fs filePath) as [md|]; [|reflexivity].
  unfold bind at 1. unfold cache_get at 1. cbn [pageCache logged].
  destruct (pageCache st !! route) as [c|]; [|reflexivity].
  by destruct (streq (Legacy.hash c) (hashContent E md)).
Qed.


Lemma legacy_buildPage_failed fs route filePath (st : state Legacy.CacheEntry) :
  failed (fst (Legacy.buildPage E route filePath fs st))
  = legacyRenderFails E fs route filePath st.
Proof.
  rewrite legacy_buildPage_unfold. unfold legacyRenderFails.
  destruct (readFileSync fs filePath) as [md|]; [|done].
  assert (Hrender : forall s,
    failed (fst (legacyRender E route md fs s))
    = match marked_parse E md with None => true | Some _ => false end).
  { intros s. unfold legacyRender, Legacy.renderTemplate, Legacy.marked.
    unfold_eff. cbn [pageCache trace]. by destruct (marked_parse E md). }
  destruct (pageCache st !! route) as [c|]; cbn [legacyIsHit].
  - destruct (streq (Legacy.hash c) (hashContent E md)); [done|].
    apply Hrender.
  - apply Hrender.
Qed.

Lemma legacy_buildPage_hit fs route filePath md (st : state Legacy.CacheEntry) c :
  readFileSync fs filePath = Some md ->
  pageCache st !! route = Some c ->
  Legacy.hash c = hashContent E md ->
  Legacy.buildPage E route filePath fs st
  = (Ok (Legacy.html c), logged (EvRead filePath) st).
Proof.
  intros Hr Hc Hh. rewrite legacy_buildPage_unfold, Hr, Hc.
  apply streq_true in Hh. by rewrite Hh.
Qed.


End Leg.
End Cache.

(** ** Properties of the page cache *)

Module CacheProps.
Import JS Path Replace Eff Common Spec StringFacts Cache Sample.

Lemma logged_read_no_render {C} p (st : state C) :
  List.filter isRender (trace (logged (EvRead p) st))
  = List.filter isRender (trace st).
Proof.
  unfold logged. cbn [trace]. rewrite List.filter_app. cbn.
  by rewrite app_nil_r.
Qed.

(** C2.  When the entry cached for the route carries the hash of the source
    file as it is read now, [buildPage] returns that entry (the legacy server:
    its page) as it is; the cache is unchanged and the only call made is the
    reading of the source: no markdown conversion, no sanitisation, no
    template substitution. *)
Theorem buildPage_cache_hit (E : Env) fs route filePath md :
  readFileSync fs filePath = Some md ->
  (forall (st : state Hardened.CacheEntry) c,
      pageCache st !! route = Some c ->
      Hardened.hash c = hashContent E md ->
      Hardened.buildPage E route filePath fs st
      = (Ok c, logged (EvRead filePath) st)
      /\ List.filter isRender (trace (logged (EvRead filePath) st))
         = List.filter isRender (trace st))
  /\ (forall (st : state Legacy.CacheEntry) c,
      pageCache st !! route = Some c ->
      Legacy.hash c = hashContent E md ->
      Legacy.buildPage E route filePath fs st
      = (Ok (Legacy.html c), logged (EvRead filePath) st)
      /\ List.filter isRender (trace (logged (EvRead filePath) st))
         = List.filter isRender (trace st)).
Proof.
  intros Hr. split; intros st c Hc Hh; (split; [|apply logged_read_no_render]).
  - by eapply buildPage_hit.
  - by eapply legacy_buildPage_hit.
Qed.

Lemma buildPage_cache_hit_witness :
  Hardened.buildPage E0 (lit "/") indexFile fs0 warm
  = (Ok indexPage, logged (EvRead indexFile) warm)
  /\ Legacy.buildPage E0 (lit "/") indexFile fs0 legacyWarm
     = (Ok (Legacy.html legacyIndexPage), logged (EvRead indexFile) legacyWarm).
Proof.
  destruct (buildPage_cache_hit E0 fs0 (lit "/") indexFile (lit "# Hi") eq_refl)
    as [Hh Hl].
  split.
  - apply (Hh warm indexPage); reflexivity.
  - apply (Hl legacyWarm legacyIndexPage); reflexivity.
Defined.



(** C8.  When the hardened [buildPage] renders a page (no cached entry with
    the hash of the source), the ETag it stores is the SHA-256 hex digest of
    the rendered page, the template with its substitutions made, between
    double quotes. *)
Theorem etag_of_rendered_page (E : Env) fs route filePath md
    (st st' : state Hardened.CacheEntry) page :
  readFileSync fs filePath = Some md ->
  isHit (pageCache st !! route) (hashContent E md) = false ->
  Hardened.buildPage E route filePath fs st = (Ok page, st') ->
  pageCache st' !! route = Some page
  /\ Hardened.etag page
     = [DQUOTE] ++ sha256hex E (Hardened.html page) ++ [DQUOTE]
  /\ exists rawHtml htmlBody nav,
      marked_parse E md = Some rawHtml
      /\ sanitizeHtml E (Hardened.pageOptions E) rawHtml = Some htmlBody
      /\ Hardened.html page
         = Hardened.substitute E (routeName route) nav htmlBody.
Proof.
  intros Hr Hmiss Hb.
  apply buildPage_ok in Hb as (md' & Hr' & [H|H]).
  - rewrite Hr in Hr'. injection Hr' as <-. destruct H as (Hhit & _). congruence.
  - rewrite Hr in Hr'. injection Hr' as <-.
    destruct H as (_ & rawHtml & htmlBody & nav & Hm & Hz & Hhtml & Hh & Het & Hc).
    split; [by rewrite Hc, lookup_insert_eq|]. split; [done|].
    by exists rawHtml, htmlBody, nav.
Qed.

Lemma etag_of_rendered_page_witness :
  exists page st',
    Hardened.buildPage E0 (lit "/") indexFile fs0 fresh = (Ok page, st')
    /\ pageCache st' !! lit "/" = Some page
    /\ Hardened.etag page
       = [DQUOTE] ++ sha256hex E0 (Hardened.html page) ++ [DQUOTE].
Proof.
  eexists. eexists. split; [vm_compute; reflexivity|].
  destruct (etag_of_rendered_page E0 fs0 (lit "/") indexFile (lit "# Hi")
              fresh _ _ eq_refl eq_refl ltac:(vm_compute; reflexivity))
    as (Hc & Het & _).
  by split.
Defined.

(** C10.  Once a page has been built for a route, a request made after the
    navigation file alone has changed returns the same entry, navigation
    block included: the source has its old hash, the cached entry is
    returned, and nothing is rendered. *)
Theorem nav_change_keeps_page (E : Env) fsA fsB route filePath
    (st st1 : state Hardened.CacheEntry) page :
  agreeExcept (Hardened.navFile E) fsA fsB ->
  filePath <> Hardened.navFile E ->
  Hardened.buildPage E route filePath fsA st = (Ok page, st1) ->
  Hardened.buildPage E route filePath fsB st1
  = (Ok page, logged (EvRead filePath) st1)
  /\ List.filter isRender (trace (logged (EvRead filePath) st1))
     = List.filter isRender (trace st1).
Proof.
  intros Hag Hne Hb. split; [|apply logged_read_no_render].
  apply buildPage_cached in Hb as (md & Hr & Hc & Hh).
  destruct (Hag filePath Hne) as [_ Hrd].
  eapply buildPage_hit; [|done|done]. by rewrite Hrd.
Qed.

Lemma nav_change_keeps_page_witness :
  exists page st1,
    Hardened.buildPage E1 (lit "/") indexFile fs1 fresh = (Ok page, st1)
    /\ includes (Hardened.html page) (lit "<nav><p>[home](/)</p></nav>") = true
    /\ Hardened.buildPage E1 (lit "/") indexFile fs0 st1
       = (Ok page, logged (EvRead indexFile) st1).
Proof.
  eexists. eexists. split; [vm_compute; reflexivity|].
  split; [vm_compute; reflexivity|].
  apply (nav_change_keeps_page E1 fs1 fs0 (lit "/") indexFile fresh).
  - intros q Hq.
    assert (Hs : streq q (lit "/srv/markd/nav.md") = false)
      by (apply streq_false; exact Hq).
    unfold fs0, fs1. cbn [existsSync readFileSync].
    rewrite Hs, orb_false_r. split; [done|].
    by destruct (streq q indexFile).
  - vm_compute. discriminate.
  - vm_compute. reflexivity.
Defined.

End CacheProps.

(** ** Which files a computation touches *)

Module Touch.
Import JS Path Replace Eff Common Spec StringFacts.
Local Open Scope eff_scope.

Section Rules.
Context {C : Type} (S : jsstring -> Prop).

Lemma touchesOnly_ret {A} (a : A) : touchesOnly (C := C) S (ret a).
Proof.
  intros fs st r st' [= <- <-]. exists []. by rewrite app_nil_r.
Qed.

Lemma touchesOnly_bind {A B} (m : M C A) (f : A -> M C B) :
  touchesOnly S m -> (forall a, touchesOnly S (f a)) ->
  touchesOnly S (bind m f).
Proof.
  intros Hm Hf fs st r st' Hb. unfold bind in Hb.
  destruct (m fs st) as [[a|] s1] eqn:Hm1.
  - destruct (Hm _ _ _ _ Hm1) as (e1 & Ht1 & He1).
    destruct (Hf a _ _ _ _ Hb) as (e2 & Ht2 & He2).
    exists (e1 ++ e2). rewrite Ht2, Ht1, <- app_assoc. split; [done|].
    by apply Forall_app.
  - injection Hb as <- <-. by apply (Hm _ _ _ _ Hm1).
Qed.

Lemma touchesOnly_try {A} (m h : M C A) :
  touchesOnly S m -> touchesOnly S h -> touchesOnly S (try_catch m h).
Proof.
  intros Hm Hh fs st r st' Hb. unfold try_catch in Hb.
  destruct (m fs st) as [[a|] s1] eqn:Hm1.
  - injection Hb as <- <-. by apply (Hm _ _ _ _ Hm1).
  - destruct (Hm _ _ _ _ Hm1) as (e1 & Ht1 & He1).
    destruct (Hh _ _ _ _ Hb) as (e2 & Ht2 & He2).
    exists (e1 ++ e2). rewrite Ht2, Ht1, <- app_assoc. split; [done|].
    by apply Forall_app.
Qed.

Lemma touchesOnly_log e : touched e = None -> touchesOnly (C := C) S (log e).
Proof.
  intros He fs st r st' [= <- <-]. exists [e]. split; [done|].
  constructor; [|done]. intros p Hp. congruence.
Qed.

Lemma touchesOnly_lift {A} (o : option A) : touchesOnly (C := C) S (lift o).
Proof.
  intros fs st r st' Hb. unfold lift in Hb. exists [].
  rewrite app_nil_r. by destruct o; injection Hb as <- <-.
Qed.

Lemma touchesOnly_exists p : S p -> touchesOnly (C := C) S (fs_existsSync p).
Proof.
  intros Hp fs st r st' [= <- <-]. exists [EvExists p]. split; [done|].
  constructor; [|done]. by intros q [= <-].
Qed.

Lemma touchesOnly_read p : S p -> touchesOnly (C := C) S (fs_readFileSync p).
Proof.
  intros Hp fs st r st' Hb. unfold fs_readFileSync in Hb.
  exists [EvRead p]. split.
  - by destruct (readFileSync fs p); injection Hb as <- <-.
  - constructor; [|done]. by intros q [= <-].
Qed.

Lemma touchesOnly_get route : touchesOnly (C := C) S (cache_get route).
Proof.
  intros fs st r st' [= <- <-]. exists []. by rewrite app_nil_r.
Qed.

Lemma touchesOnly_set route (c : C) : touchesOnly S (cache_set route c).
Proof.
  intros fs st r st' [= <- <-]. exists []. cbn. by rewrite app_nil_r.
Qed.

End Rules.

Lemma touchesOnly_weaken {C A} (S T : jsstring -> Prop) (m : M C A) :
  (forall p, S p -> T p) -> touchesOnly S m -> touchesOnly T m.
Proof.
  intros HST Hm fs st r st' Hb.
  destruct (Hm _ _ _ _ Hb) as (e & Ht & He). exists e. split; [done|].
  eapply Forall_impl; [exact He|]. intros ev Hev p Hp. by apply HST, Hev.
Qed.

Ltac touch_with tac :=
  repeat first
    [ tac
    | apply touchesOnly_ret
    | apply touchesOnly_get
    | apply touchesOnly_set
    | apply touchesOnly_lift
    | apply touchesOnly_log; reflexivity
    | apply touchesOnly_bind; [|intros ?]
    | apply touchesOnly_try ].

Ltac touch := touch_with fail.

Section Hard.
Variable E : Env.

Lemma buildNav_touches S :
  S (Hardened.navFile E) -> touchesOnly S (Hardened.buildNav E).
Proof.
  intros HS. unfold Hardened.buildNav, Hardened.marked, Hardened.sanitize.
  apply touchesOnly_bind; [by apply touchesOnly_exists|]. intros present.
  destruct (negb present); touch. by apply touchesOnly_read.
Qed.

Lemma buildPage_touches S route filePath :
  S filePath -> S (Hardened.navFile E) ->
  touchesOnly S (Hardened.buildPage E route filePath).
Proof.
  intros Hf Hn.
  unfold Hardened.buildPage, Hardened.renderTemplate, Hardened.marked,
    Hardened.sanitize.
  apply touchesOnly_bind; [by apply touchesOnly_read|]. intros md.
  apply touchesOnly_bind; [apply touchesOnly_get|]. intros cached.
  assert (Hrender : forall h,
    touchesOnly S
      (let* rawHtml := log (EvMarked md) >> lift (marked_parse E md) in
       let* htmlBody := log (EvSanitize (Hardened.pageOptions E) rawHtml)
                        >> lift (sanitizeHtml E (Hardened.pageOptions E) rawHtml) in
       let* fullHtml := log (EvTemplate (routeName route) htmlBody) >>
                        (let* nav := Hardened.buildNav E in
                         ret (Hardened.substitute E (routeName route) nav htmlBody)) in
       cache_set route
         {| Hardened.hash := h; Hardened.html := fullHtml;
            Hardened.etag := [DQUOTE] ++ hashContent E fullHtml ++ [DQUOTE] |}
       >> ret {| Hardened.hash := h; Hardened.html := fullHtml;
                 Hardened.etag := [DQUOTE] ++ hashContent E fullHtml ++ [DQUOTE] |})).
  { intros h. touch_with ltac:(by apply buildNav_touches). }
  destruct cached as [c|]; [|apply Hrender].
  destruct (streq _ _); [apply touchesOnly_ret|apply Hrender].
Qed.

End Hard.
End Touch.

(** ** The request handlers *)

Module Handler.
Import JS Path Replace Eff Common Spec StringFacts PathFacts Sanitiser Cache
  Sample.
Local Open Scope eff_scope.

Lemma resolve_not_empty cw args : resolve cw args <> [].
Proof.
  unfold resolve. destruct (resolveLoop _ _) as [rp [|]]; [done|].
  cbn [negb]. by destruct (normalizeString rp true).
Qed.

Lemma normalize_not_empty p : normalize p <> [].
Proof.
  unfold normalize. destruct (is_empty p); [done|].
  destruct (is_empty (normalizeString _ _)) eqn:Hq.
  - by destruct (isAbsolute p), (endsWith p sep).
  - apply is_empty_false in Hq.
    destruct (isAbsolute p); [done|].
    destruct (endsWith p sep); [|done].
    intros H. by apply app_eq_nil in H as [H _].
Qed.

Lemma pjoin_not_empty args : pjoin args <> [].
Proof.
  unfold pjoin. destruct (List.filter _ args); [done|apply normalize_not_empty].
Qed.

Section Hard.
Variable E : Env.

Lemma routeToFile_not_empty c f : Hardened.routeToFile E c = Some f -> f <> [].
Proof.
  unfold Hardened.routeToFile. destruct (_ || _); [done|].
  intros [= <-]. apply resolve_not_empty.
Qed.

Lemma handler_unfold req fs st :
  Hardened.handler E req fs st =
  if negb (streq (method req) (lit "GET")) then
    (Ok (Hardened.plain 405
           [(lit "Content-Type", lit "text/plain; charset=utf-8")]
           "Method Not Allowed"), st)
  else
    match sanitiseUrl (url req) with
    | None => (Ok (Hardened.plain 400 [] "Bad Request"), st)
    | Some c =>
        match Hardened.routeToFile E c with
        | None => (Ok (Hardened.plain 403 [] "Forbidden"), st)
        | Some f =>
            if negb (existsSync fs f)
            then (Ok (Hardened.plain 404 [] "Not Found"), logged (EvExists f) st)
            else
              match Hardened.buildPage E c f fs (logged (EvExists f) st) with
              | (Ok page, s1) =>
                  (Ok (if bool_decide (headers req !! lit "if-none-match"
                                       = Some (Hardened.etag page))
                       then notModified else okPage page), s1)
              | (Throw, s1) =>
                  (Ok (Hardened.plain 500 [] "Internal Server Error"), s1)
              end
        end
    end.
Proof.
  unfold Hardened.handler.
  destruct (negb (streq (method req) (lit "GET"))); [reflexivity|].
  destruct (sanitiseUrl (url req)) as [c|] eqn:Hc; [|reflexivity].
  apply sanitiseUrl_not_empty, is_empty_false in Hc.
  cbn [truthy]. rewrite Hc.
  destruct (Hardened.routeToFile E c) as [f|] eqn:Hf; [|reflexivity].
  apply routeToFile_not_empty, is_empty_false in Hf.
  cbn [truthy]. rewrite Hf.
  unfold bind at 1. unfold fs_existsSync at 1. fold (logged (EvExists f) st).
  destruct (negb (existsSync fs f)); [reflexivity|].
  unfold try_catch. unfold bind at 1.
  destruct (Hardened.buildPage E c f fs (logged (EvExists f) st))
    as [[page|] s1]; [|reflexivity].
  by destruct (bool_decide _).
Qed.

End Hard.

Section Leg.
Variable E : Env.

Lemma legacy_routeToFile_not_empty c f :
  Legacy.routeToFile E c = Some f -> f <> [].
Proof.
  unfold Legacy.routeToFile. destruct (negb _); [done|].
  intros [= <-]. apply pjoin_not_empty.
Qed.

Lemma legacy_handler_unfold req fs st :
  Legacy.handler E req fs st =
  if negb (streq (method req) (lit "GET") || streq (method req) (lit "POST"))
  then (Ok (Legacy.plain 405 "Method Not Allowed"), st)
  else
    match sanitiseUrl (url req) with
    | None => (Ok (Legacy.plain 400 "Bad Request"), st)
    | Some c =>
        match Legacy.routeToFile E c with
        | None => (Ok (Legacy.plain 403 "Forbidden"), st)
        | Some f =>
            if negb (existsSync fs f)
            then (Ok (Legacy.plain 404 "Not Found"), logged (EvExists f) st)
            else
              match Legacy.buildPage E c f fs (logged (EvExists f) st) with
              | (Ok page, s1) =>
                  (Ok {| status := 200; resHeaders := Legacy.pageHeaders;
                         body := page |}, s1)
              | (Throw, s1) =>
                  (Ok (Legacy.plain 500 "Internal Server Error"), s1)
              end
        end
    end.
Proof.
  unfold Legacy.handler. rewrite negb_orb.
  destruct (negb (streq (method req) (lit "GET")) && _); [reflexivity|].
  destruct (sanitiseUrl (url req)) as [c|] eqn:Hc; [|reflexivity].
  apply sanitiseUrl_not_empty, is_empty_false in Hc.
  cbn [truthy]. rewrite Hc.
  destruct (Legacy.routeToFile E c) as [f|] eqn:Hf; [|reflexivity].
  apply legacy_routeToFile_not_empty, is_empty_false in Hf.
  cbn [truthy]. rewrite Hf.
  unfold bind at 1. unfold fs_existsSync at 1. fold (logged (EvExists f) st).
  destruct (negb (existsSync fs f)); [reflexivity|].
  unfold try_catch. unfold bind at 1.
  by destruct (Legacy.buildPage E c f fs (logged (EvExists f) st))
    as [[page|] s1].
Qed.

End Leg.

(** C5.  Both handlers answer every request (no exception leaves them), and
    the answer follows the guards in their order: a method that is not
    accepted gives 405 whatever the URL; otherwise a URL the sanitiser
    rejects gives 400; otherwise a path the resolver rejects gives 403, none
    of these touching a file; otherwise a file that does not exist gives 404
    after the existence test alone; otherwise a failure of [buildPage] gives
    500, and its success 200 or 304.  [buildPage] fails exactly when the
    source cannot be read or, the page having to be rendered, the markdown
    converter or the sanitiser throws. *)
Theorem handler_guards_in_order (E : Env) :
  guardsInOrder (fun m => streq m (lit "GET"))
    (Hardened.routeToFile E) (Hardened.buildPage E) (Hardened.handler E)
  /\ guardsInOrder (fun m => streq m (lit "GET") || streq m (lit "POST"))
       (Legacy.routeToFile E) (Legacy.buildPage E) (Legacy.handler E)
  /\ (forall fs route filePath st,
        failed (fst (Hardened.buildPage E route filePath fs st))
        = renderFails E fs route filePath st)
  /\ (forall fs route filePath st,
        failed (fst (Legacy.buildPage E route filePath fs st))
        = legacyRenderFails E fs route filePath st).
Proof.
  split; [|split; [|split; [apply buildPage_failed
                            |apply legacy_buildPage_failed]]];
    intros req fs st.
  - rewrite handler_unfold.
    destruct (negb (streq (method req) (lit "GET"))); [by eexists _, _|].
    destruct (sanitiseUrl (url req)) as [c|]; [|by eexists _, _].
    destruct (Hardened.routeToFile E c) as [f|]; [|by eexists _, _].
    destruct (negb (existsSync fs f)); [by eexists _, _|].
    destruct (Hardened.buildPage E c f fs (logged (EvExists f) st))
      as [[page|] s1]; [|by eexists _, _].
    eexists _, _. split; [reflexivity|]. split; [|done].
    destruct (bool_decide _); [by right|by left].
  - rewrite legacy_handler_unfold.
    destruct (negb (_ || _)); [by eexists _, _|].
    destruct (sanitiseUrl (url req)) as [c|]; [|by eexists _, _].
    destruct (Legacy.routeToFile E c) as [f|]; [|by eexists _, _].
    destruct (negb (existsSync fs f)); [by eexists _, _|].
    destruct (Legacy.buildPage E c f fs (logged (EvExists f) st))
      as [[page|] s1]; [|by eexists _, _].
    eexists _, _. split; [reflexivity|]. split; [by left|done].
Qed.

(** C4.  A GET request that reaches the rendering stage of the hardened
    server and for which [buildPage] returns a page is answered 304 with an
    empty body when its [If-None-Match] header is the stored quoted ETag,
    code unit for code unit, and 200 with the whole page when the header is
    absent or differs. *)
Theorem conditional_get (E : Env) req fs st c f page s1 :
  method req = lit "GET" ->
  sanitiseUrl (url req) = Some c ->
  Hardened.routeToFile E c = Some f ->
  existsSync fs f = true ->
  Hardened.buildPage E c f fs (logged (EvExists f) st) = (Ok page, s1) ->
  (headers req !! lit "if-none-match" = Some (Hardened.etag page) ->
   Hardened.handler E req fs st
   = (Ok {| status := 304; resHeaders := []; body := [] |}, s1))
  /\ (headers req !! lit "if-none-match" <> Some (Hardened.etag page) ->
      Hardened.handler E req fs st
      = (Ok {| status := 200;
               resHeaders := Hardened.securityHeaders (Hardened.etag page);
               body := Hardened.html page |}, s1)).
Proof.
  intros Hm Hc Hf He Hb. rewrite handler_unfold, Hm, Hc, Hf, He, Hb.
  rewrite streq_refl. cbn [negb].
  split; intros Hh.
  - by rewrite bool_decide_eq_true_2.
  - by rewrite bool_decide_eq_false_2.
Qed.

Lemma conditional_get_witness :
  exists s1,
    Hardened.handler E0 (getIfNoneMatch "/" (Hardened.etag indexPage)) fs0 fresh
    = (Ok {| status := 304; resHeaders := []; body := [] |}, s1)
    /\ Hardened.handler E0 (get "/") fs0 fresh
       = (Ok {| status := 200;
                resHeaders := Hardened.securityHeaders (Hardened.etag indexPage);
                body := Hardened.html indexPage |}, s1).
Proof.
  eexists. split.
  - apply (proj1 (conditional_get E0 (getIfNoneMatch "/" (Hardened.etag indexPage))
                    fs0 fresh (lit "/") indexFile indexPage _
                    eq_refl eq_refl eq_refl eq_refl
                    ltac:(vm_compute; reflexivity))).
    vm_compute. reflexivity.
  - apply (proj2 (conditional_get E0 (get "/") fs0 fresh (lit "/") indexFile
                    indexPage _ eq_refl eq_refl eq_refl eq_refl
                    ltac:(vm_compute; reflexivity))).
    vm_compute. discriminate.
Defined.

End Handler.

(** ** Directory traversal *)

Module Traversal.
Import JS Path Replace Eff Common Spec StringFacts PathFacts Sanitiser
  Resolver Cache Touch Handler Sample.

(** C1, amended.  Whatever the raw URL, with [../] sequences in any encoding
    or without, the hardened handler stays inside the content root: every
    file it tests or reads is the navigation file or lies strictly below the
    content root, and when it answers 200 or 304 the URL was sanitised to a
    path which the resolver mapped to an existing file strictly below the
    content root, the page of which [buildPage] returned. *)
Theorem handler_stays_inside_root (E : Env) req fs st resp st' :
  isAbsolute (dirname E) = true ->
  Hardened.handler E req fs st = (Ok resp, st') ->
  (exists extra,
      trace st' = trace st ++ extra
      /\ Forall (fun e => forall p, touched e = Some p ->
                   p = Hardened.navFile E
                   \/ insideRoot (pagesDir E) p = true) extra)
  /\ (status resp = 200 \/ status resp = 304 ->
      exists c f page,
        sanitiseUrl (url req) = Some c
        /\ Hardened.routeToFile E c = Some f
        /\ insideRoot (pagesDir E) f = true
        /\ existsSync fs f = true
        /\ Hardened.buildPage E c f fs (logged (EvExists f) st) = (Ok page, st')
        /\ (status resp = 200 -> body resp = Hardened.html page)).
Proof.
  intros Habs. rewrite handler_unfold.
  assert (Hnil : exists extra : list event,
    trace st = trace st ++ extra
    /\ Forall (fun e => forall p, touched e = Some p ->
                 p = Hardened.navFile E
                 \/ insideRoot (pagesDir E) p = true) extra).
  { exists []. by rewrite app_nil_r. }
  destruct (negb (streq (method req) (lit "GET")));
    [intros [= <- <-]; split; [done|by intros [|]]|].
  destruct (sanitiseUrl (url req)) as [c|];
    [|intros [= <- <-]; split; [done|by intros [|]]].
  destruct (Hardened.routeToFile E c) as [f|] eqn:Hf;
    [|intros [= <- <-]; split; [done|by intros [|]]].
  pose proof (routeToFile_inside E Habs c f Hf) as Hin.
  destruct (existsSync fs f) eqn:Hex; cbn [negb].
  - destruct (Hardened.buildPage E c f fs (logged (EvExists f) st))
      as [[page|] s1] eqn:Hb.
    + intros [= <- <-]. split.
      * destruct (buildPage_touches E
                    (fun p => p = Hardened.navFile E
                              \/ insideRoot (pagesDir E) p = true)
                    c f (or_intror Hin) (or_introl eq_refl) _ _ _ _ Hb)
          as (extra & Ht & He).
        exists (EvExists f :: extra). rewrite Ht. cbn [logged trace].
        rewrite <- app_assoc. split; [done|].
        constructor; [|done]. intros p [= <-]. by right.
      * intros _. exists c, f, page. repeat split; try done.
        destruct (bool_decide _); [discriminate|done].
    + intros [= <- <-]. split; [|by intros [|]].
      destruct (buildPage_touches E
                  (fun p => p = Hardened.navFile E
                            \/ insideRoot (pagesDir E) p = true)
                  c f (or_intror Hin) (or_introl eq_refl) _ _ _ _ Hb)
        as (extra & Ht & He).
      exists (EvExists f :: extra). rewrite Ht. cbn [logged trace].
      rewrite <- app_assoc. split; [done|].
      constructor; [|done]. intros p [= <-]. by right.
  - intros [= <- <-]. split; [|by intros [|]].
    exists [EvExists f]. split; [done|].
    constructor; [|done]. intros p [= <-]. by right.
Qed.

Lemma handler_stays_inside_root_witness :
  exists resp st',
    Hardened.handler E0 (get "/a/../index") fs0 fresh = (Ok resp, st')
    /\ status resp = 200
    /\ exists c f,
        sanitiseUrl (lit "/a/../index") = Some c
        /\ Hardened.routeToFile E0 c = Some f
        /\ insideRoot (pagesDir E0) f = true.
Proof.
  eexists. eexists. split; [vm_compute; reflexivity|].
  split; [reflexivity|].
  destruct (handler_stays_inside_root E0 (get "/a/../index") fs0 fresh _ _
              eq_refl ltac:(vm_compute; reflexivity))
    as (_ & Hserve).
  destruct (Hserve (or_introl eq_refl)) as (c & f & page & Hc & Hf & Hin & _).
  by exists c, f.
Defined.

(** C1 as stated fails: a URL with a [../] sequence that normalises to an
    existing document is answered 200 by both servers. *)
Lemma traversal_url_answered_200 :
  includes (url (get "/a/../index")) (lit "../") = true
  /\ statusOf (fst (Hardened.handler E0 (get "/a/../index") fs0 fresh))
     = Some 200
  /\ statusOf (fst (Legacy.handler E0 (get "/a/../index") fs0 fresh))
     = Some 200.
Proof. vm_compute. done. Qed.

(** The legacy resolver compares prefixes of strings: a sibling of the
    content root whose name starts like it passes the check, and the legacy
    handler serves the file found there. *)
Lemma legacy_serves_sibling_directory :
  sanitiseUrl (lit "http://h/../../../pages-evil/x")
  = Some (lit "/../pages-evil/x")
  /\ Legacy.routeToFile E0 (lit "/../pages-evil/x")
     = Some (lit "/srv/markd/pages-evil/x.md")
  /\ insideRoot (pagesDir E0) (lit "/srv/markd/pages-evil/x.md") = false
  /\ fst (Legacy.handler E0 (get "http://h/../../../pages-evil/x") fsEvil fresh)
     = Ok {| status := 200; resHeaders := Legacy.pageHeaders;
             body := lit "<title>../pages-evil/x</title><p>secret</p>" |}
  /\ Hardened.routeToFile E0 (lit "/../pages-evil/x") = None.
Proof. vm_compute. done. Qed.

(** A page served by the hardened handler is served again, the same, after
    the navigation file alone has changed, and nothing is rendered for it:
    the file the resolver returns is never the navigation file. *)
Lemma served_page_survives_nav_change (E : Env) req fsA fsB st r1 st1 :
  isAbsolute (dirname E) = true ->
  agreeExcept (Hardened.navFile E) fsA fsB ->
  Hardened.handler E req fsA st = (Ok r1, st1) ->
  status r1 = 200 ->
  exists st2,
    Hardened.handler E req fsB st1 = (Ok r1, st2)
    /\ List.filter isRender (trace st2) = List.filter isRender (trace st1).
Proof.
  intros Habs Hag H1 Hst. rewrite handler_unfold in H1 |- *.
  destruct (negb (streq (method req) (lit "GET")));
    [injection H1 as <- <-; discriminate|].
  destruct (sanitiseUrl (url req)) as [c|];
    [|injection H1 as <- <-; discriminate].
  destruct (Hardened.routeToFile E c) as [f|] eqn:Hf;
    [|injection H1 as <- <-; discriminate].
  assert (Hne : f <> Hardened.navFile E).
  { intros ->. pose proof (routeToFile_inside E Habs c _ Hf) as Hin.
    by rewrite navFile_outside_root in Hin. }
  destruct (Hag f Hne) as [Hex Hrd]. rewrite Hex.
  destruct (negb (existsSync fsA f)); [injection H1 as <- <-; discriminate|].
  destruct (Hardened.buildPage E c f fsA (logged (EvExists f) st))
    as [[page|] s1] eqn:Hb; [|injection H1 as <- <-; discriminate].
  injection H1 as <- <-.
  apply buildPage_cached in Hb as (md & Hr & Hc & Hh).
  rewrite (buildPage_hit E fsB c f md (logged (EvExists f) s1) page);
    [|by rewrite Hrd|done|done].
  eexists. split; [reflexivity|].
  unfold logged. cbn [trace]. rewrite !List.filter_app. cbn.
  by rewrite !app_nil_r.
Qed.

End Traversal.

(** ** Template substitution *)

Module Template.
Import JS Path Replace Eff Common Spec StringFacts PathFacts Sample.

Lemma getSubstitution_plain matched before after repl :
  DOLLAR ∉ repl -> getSubstitution matched before after repl = repl.
Proof.
  induction repl as [|c r IH]; intros H; [reflexivity|].
  apply not_elem_of_cons in H as [Hc Hr]. cbn [getSubstitution].
  destruct (N.eqb_spec c DOLLAR); [congruence|]. by rewrite IH.
Qed.

(** Without dollar signs in the replacement, the text already passed plays
    no role. *)
Lemma replaceAllGo_before pat repl b1 b2 k s :
  DOLLAR ∉ repl ->
  replaceAllGo pat repl b1 k s = replaceAllGo pat repl b2 k s.
Proof.
  intros Hd. revert b1 b2 k. induction s as [|c r IH]; intros b1 b2 k;
    [reflexivity|].
  cbn [replaceAllGo]. destruct k as [|k]; [|apply IH].
  rewrite !getSubstitution_plain by done.
  destruct (startsWith (c :: r) pat);
    by rewrite (IH (b1 ++ [c]) (b2 ++ [c])).
Qed.

Lemma replaceAllGo_skip pat repl before t s :
  replaceAllGo pat repl before (length t) (t ++ s)
  = replaceAllGo pat repl (before ++ t) 0 s.
Proof.
  revert before. induction t as [|c t IH]; intros before.
  - by rewrite app_nil_r.
  - cbn [length app replaceAllGo]. rewrite IH. by rewrite <- app_assoc.
Qed.

Lemma startsWith_app_long s x p :
  (length p <= length s)%nat -> startsWith (s ++ x) p = startsWith s p.
Proof.
  revert s. induction p as [|a p IH]; intros s Hl; [reflexivity|].
  destruct s as [|b s]; [simpl in Hl; lia|]. cbn [app startsWith].
  rewrite IH; [done|]. simpl in Hl. lia.
Qed.

Lemma startsWith_short s p :
  (length s < length p)%nat -> startsWith s p = false.
Proof.
  intros Hl. destruct (startsWith s p) eqn:H; [|done].
  apply startsWith_spec in H as [r ->]. rewrite length_app in Hl. lia.
Qed.

Lemma unbordered_spec tok i :
  unbordered tok = true -> (1 <= i < length tok)%nat ->
  startsWith tok (drop i tok) = false.
Proof.
  unfold unbordered. rewrite forallb_forall. intros H Hi.
  apply negb_true_iff, H, in_seq. lia.
Qed.

(** An occurrence of an unbordered [tok] cannot begin inside [a] and end
    inside the occurrence that follows [a]. *)
Lemma no_straddle tok a b :
  unbordered tok = true ->
  (0 < length a < length tok)%nat ->
  startsWith (a ++ tok ++ b) tok = false.
Proof.
  intros Hu Hl. destruct (startsWith (a ++ tok ++ b) tok) eqn:H; [|done].
  apply startsWith_spec in H as [r Hr].
  assert (Ha : take (length a) tok = a).
  { apply (f_equal (take (length a))) in Hr.
    rewrite take_app_length in Hr. rewrite take_app_le in Hr by lia. done. }
  pose proof (take_drop (length a) tok) as Htd. rewrite Ha in Htd.
  assert (Hr2 : a ++ tok ++ b = (a ++ drop (length a) tok) ++ r)
    by (by rewrite Htd).
  rewrite <- app_assoc in Hr2. apply app_inv_head in Hr2.
  assert (Hd : startsWith tok (drop (length a) tok) = true).
  { rewrite <- (startsWith_app_long tok b) by (rewrite length_drop; lia).
    rewrite Hr2. apply startsWith_app. }
  by rewrite unbordered_spec in Hd by (done || lia).
Qed.

(** One pass of [replaceAll] with an unbordered pattern and a replacement
    without dollar signs replaces the occurrence after [a] whatever [a] and
    [b] are: no occurrence is skipped. *)
Lemma replaceAllGo_occurrence tok v b :
  unbordered tok = true -> tok <> [] -> DOLLAR ∉ v ->
  forall a before k,
    (k <= length a)%nat ->
    replaceAllGo tok v before k (a ++ tok ++ b)
    = replaceAllGo tok v before k a ++ v ++ replaceAllGo tok v [] 0 b.
Proof.
  intros Hu Hne Hd. induction a as [|c a IH]; intros before k Hk.
  - simpl in Hk. assert (k = 0)%nat as -> by lia.
    destruct tok as [|t0 tok']; [done|].
    cbn [app replaceAllGo length].
    replace (S (length tok') - 1)%nat with (length tok') by lia.
    change (t0 :: tok' ++ b) with ((t0 :: tok') ++ b).
    rewrite startsWith_app, getSubstitution_plain by done.
    rewrite replaceAllGo_skip.
    by rewrite (replaceAllGo_before _ _ ((before ++ [t0]) ++ tok') []).
  - cbn [app replaceAllGo]. destruct k as [|k].
    + rewrite !getSubstitution_plain by done.
      change (c :: a ++ tok ++ b) with ((c :: a) ++ tok ++ b).
      destruct (le_lt_dec (length tok) (length (c :: a))) as [Hl|Hl].
      * rewrite startsWith_app_long by done.
        destruct (startsWith (c :: a) tok).
        -- rewrite IH; [by rewrite <- app_assoc|]. simpl in Hl. lia.
        -- rewrite IH by lia. done.
      * rewrite no_straddle by (done || simpl in *; lia).
        rewrite startsWith_short by done.
        rewrite IH by lia. done.
    + rewrite IH; [done|]. simpl in Hk. lia.
Qed.

(** X22.  One pass of [replaceAll] with a pattern that cannot overlap itself
    and a replacement without dollar signs replaces an occurrence wherever
    it stands: the text before it and the text after it are rewritten on
    their own and the replacement is put between them. *)
Lemma replaceAll_every_occurrence tok v a b :
  unbordered tok = true -> tok <> [] -> DOLLAR ∉ v ->
  replaceAll (a ++ tok ++ b) tok v
  = replaceAll a tok v ++ v ++ replaceAll b tok v.
Proof.
  intros Hu Hne Hd. unfold replaceAll.
  apply replaceAllGo_occurrence; (done || lia).
Qed.

Lemma placeholders_unbordered : forallb unbordered placeholders = true.
Proof. reflexivity. Qed.

(** C9 fails on the legacy server, whose [renderTemplate] uses [replace]:
    of two occurrences of the title placeholder only the first is replaced
    and the second is left in the page.  (The hardened server, with
    [replaceAll], replaces both.) *)
Theorem legacy_replaces_first_occurrence_only :
  Legacy.substitute E2 (lit "index") (lit "<p>x</p>")
  = lit "<title>index</title><h1>{{title}}</h1><p>x</p>"
  /\ Hardened.substitute E2 (lit "index") [] (lit "<p>x</p>")
     = lit "<title>index</title><h1>index</h1><p>x</p>".
Proof. vm_compute. done. Qed.

End Template.

(** ** Properties of the sanitiser *)

Module SanitiserProps.
Import JS Path Replace Eff Common Spec StringFacts PathFacts Sanitiser Sample.

Lemma includes_char s c : includes s [c] = false -> c ∉ s.
Proof.
  induction s as [|x r IH]; intros H; [apply not_elem_of_nil|].
  cbn [includes startsWith] in H. rewrite andb_true_r in H.
  apply orb_false_iff in H as [Hx Hr]. apply N.eqb_neq in Hx.
  apply not_elem_of_cons. split; [done|by apply IH].
Qed.

(** C6, amended.  On a path that starts with a slash and whose sanitised
    form has no percent sign, question mark or hash left in it, the
    sanitiser is idempotent. *)
Theorem sanitiseUrl_idempotent_on_plain_paths p q :
  startsWith p (lit "/") = true ->
  sanitiseUrl p = Some q ->
  includes q (lit "%") = false ->
  includes q (lit "?") = false ->
  includes q (lit "#") = false ->
  sanitiseUrl q = Some q.
Proof.
  intros Hp Hq H1 H2 H3.
  apply (sanitiseUrl_fixpoint p q Hp Hq); by apply includes_char.
Qed.

Lemma sanitiseUrl_idempotent_on_plain_paths_witness :
  sanitiseUrl (lit "/a/./b/../c//d/") = Some (lit "/a/c/d")
  /\ sanitiseUrl (lit "/a/c/d") = Some (lit "/a/c/d").
Proof.
  split; [reflexivity|].
  apply (sanitiseUrl_idempotent_on_plain_paths (lit "/a/./b/../c//d/"));
    reflexivity.
Defined.

(** C6 as stated fails: an escaped percent sign, question mark or hash is
    decoded by the first pass and read again by the second, and a path that
    does not start with a slash keeps a dot segment after the first pass. *)
Lemma sanitiseUrl_not_idempotent :
  (sanitiseUrl (lit "/%2541") = Some (lit "/%41")
   /\ sanitiseUrl (lit "/%41") = Some (lit "/A"))
  /\ (sanitiseUrl (lit "/a%3Fb") = Some (lit "/a?b")
      /\ sanitiseUrl (lit "/a?b") = Some (lit "/a"))
  /\ (sanitiseUrl (lit "/a%23b") = Some (lit "/a#b")
      /\ sanitiseUrl (lit "/a#b") = Some (lit "/a"))
  /\ (sanitiseUrl (lit "/%25") = Some (lit "/%")
      /\ sanitiseUrl (lit "/%") = None)
  /\ (sanitiseUrl (lit "../a") = Some (lit "/../a")
      /\ sanitiseUrl (lit "/../a") = Some (lit "/a")).
Proof. vm_compute. done. Qed.

Lemma finish_trimmed d :
  finish d = if streq (trimmed d) [] then lit "/" else trimmed d.
Proof. reflexivity. Qed.

(** The value compared with the empty string in the last step of
    [sanitiseUrl] starts with a slash: the comparison never succeeds. *)
Lemma trimmed_not_empty d : streq (trimmed d) [] = false.
Proof.
  apply streq_false. unfold trimmed.
  set (c1 := normalize d).
  assert (Hc2 : exists r,
    (if startsWith c1 (lit "/") then c1 else lit "/" ++ c1) = SLASH :: r).
  { destruct (startsWith c1 (lit "/")) eqn:Hs.
    - apply startsWith_spec in Hs as [r ->]. by exists r.
    - by exists c1. }
  destruct Hc2 as [r ->].
  destruct (endsWith _ _ && _) eqn:Hc; [|done].
  apply andb_true_iff in Hc as [_ Hne].
  apply negb_true_iff, streq_false in Hne.
  destruct r as [|x r]; [done|]. done.
Qed.

(** C7 fails on the empty path: [path.posix.normalize] turns it into a dot,
    the slash is put before the dot, and the test for an empty result comes
    after that.  The part on the trailing slash holds. *)
Theorem sanitiseUrl_empty_path :
  sanitiseUrl (lit "") = Some (lit "/.")
  /\ sanitiseUrl (lit "?x") = Some (lit "/.")
  /\ sanitiseUrl (lit "/a/b/") = Some (lit "/a/b")
  /\ sanitiseUrl (lit "/a/b") = Some (lit "/a/b").
Proof. vm_compute. done. Qed.

End SanitiserProps.

(** ** The listening port *)

Module PortProps.
Import JS Common Port.

Lemma hash_uint32 name h :
  h < 4294967296 -> fold_left step name h < 4294967296.
Proof.
  revert h. induction name as [|c r IH]; intros h Hh; [done|].
  cbn [fold_left]. apply IH. unfold step. by apply N.mod_upper_bound.
Qed.

(** X1.  Whatever the site name, the derived port lies between 10000 and
    59999: it is a valid TCP port outside the privileged range, and the hash
    it comes from stays an unsigned 32-bit number. *)
Theorem derivePort_range name :
  10000 <= derivePort name < 60000
  /\ 1024 < derivePort name < 65536
  /\ fold_left step name 0 < 4294967296.
Proof.
  unfold derivePort. cbv zeta.
  pose proof (N.mod_upper_bound (fold_left step name 0) 50000) as H.
  set (x := fold_left step name 0 mod 50000) in *.
  split; [lia|]. split; [lia|].
  by apply hash_uint32.
Qed.

End PortProps.

(** ** Further properties of the sanitiser *)

Module RouteProps.
Import JS Path Replace Eff Common Spec Further StringFacts PathFacts Sanitiser
  Sample.

Lemma segName_spec s : segName s = true <-> s <> [] /\ SLASH ∉ s.
Proof.
  unfold segName. rewrite andb_true_iff, negb_true_iff, forallb_forall.
  split.
  - intros [H1 H2]. split; [by destruct s|].
    intros Hin. apply list_elem_of_In, H2 in Hin. by rewrite N.eqb_refl in Hin.
  - intros [H1 H2]. split; [by destruct s|].
    intros x Hx. apply negb_true_iff, N.eqb_neq. intros ->.
    by apply H2, list_elem_of_In.
Qed.

(** Whatever the flag, the segments kept by [normalizeString] are not empty
    and have no separator. *)
Lemma normalizeSegs_segName b segs res :
  Forall (fun w => SLASH ∉ w) segs ->
  forallb segName res = true ->
  forallb segName (normalizeSegs b segs res) = true.
Proof.
  revert res. induction segs as [|s r IH]; intros res Hs Hres.
  - simpl. rewrite forallb_forall in *. intros x Hx. apply Hres.
    by apply in_rev.
  - inversion Hs as [|? ? Hs1 Hs2]; subst. simpl.
    destruct (is_empty s || streq s dot) eqn:H1; [by apply IH|].
    destruct (streq s dotdot) eqn:H2.
    + destruct res as [|top below].
      * apply IH; [done|]. by destruct b.
      * simpl in Hres. apply andb_true_iff in Hres as [Ht Hb].
        destruct (streq top dotdot) eqn:H3.
        -- apply IH; [done|]. destruct b; simpl; by rewrite Ht, Hb.
        -- by apply IH.
    + apply IH; [done|]. simpl. rewrite Hres, andb_true_r.
      apply segName_spec. apply orb_false_iff in H1 as [H1a H1b].
      split; [by destruct s|done].
Qed.

Lemma join_seg_head N :
  N <> [] -> forallb segName N = true ->
  exists x t, x <> SLASH /\ join sep N = x :: t.
Proof.
  destruct N as [|s r]; [done|]. intros _ H. simpl in H.
  apply andb_true_iff in H as [Hs _]. apply segName_spec in Hs as [Hs1 Hs2].
  destruct (join_cons sep s r) as [t ->].
  destruct s as [|x s']; [done|]. exists x, (s' ++ t). split; [|done].
  intros ->. apply Hs2. by left.
Qed.

Lemma join_seg_last N :
  N <> [] -> forallb segName N = true ->
  exists t x, x <> SLASH /\ join sep N = t ++ [x].
Proof.
  intros Hne HN. destruct (exists_last Hne) as (N' & s & ->).
  rewrite forallb_app in HN. apply andb_true_iff in HN as [_ Hs].
  simpl in Hs. rewrite andb_true_r in Hs.
  apply segName_spec in Hs as [Hs1 Hs2].
  destruct (join_snoc sep N' s) as [t ->].
  destruct (exists_last Hs1) as (s' & x & ->).
  exists (t ++ s'), x. split; [|by rewrite app_assoc].
  intros ->. apply Hs2, elem_of_app. right. by apply list_elem_of_singleton.
Qed.

Lemma endsWith_snoc s x : endsWith (s ++ [x]) sep = (SLASH =? x).
Proof.
  unfold endsWith. rewrite rev_app_distr. cbn [rev app sep startsWith].
  by rewrite andb_true_r.
Qed.

(** The three forms of what [sanitiseUrl] returns. *)
Lemma finish_cases d :
  finish d = sep \/ finish d = lit "/."
  \/ exists N, N <> [] /\ forallb segName N = true
               /\ finish d = sep ++ join sep N.
Proof.
  unfold finish, normalize.
  destruct (is_empty d) eqn:Hd; [right; left; reflexivity|].
  unfold normalizeString.
  set (N := normalizeSegs (negb (isAbsolute d)) (split SLASH d) []).
  assert (HN : forallb segName N = true)
    by (apply normalizeSegs_segName; [apply split_pieces|done]).
  destruct N as [|s r] eqn:HNeq.
  - cbn [join is_empty].
    destruct (isAbsolute d); [left; reflexivity|].
    destruct (endsWith d sep); right; left; reflexivity.
  - rewrite <- HNeq in *. assert (Hne : N <> []) by (by rewrite HNeq).
    clear HNeq. right. right. exists N. split; [done|]. split; [done|].
    destruct (join_seg_head N Hne HN) as (x & t & Hx & Hj).
    destruct (join_seg_last N Hne HN) as (t' & y & Hy & Hj').
    assert (Hq : is_empty (join sep N) = false) by (by rewrite Hj).
    rewrite Hq. change (lit "/") with sep.
    assert (Hstart : forall q', startsWith (join sep N ++ q') sep = false).
    { intros q'. rewrite Hj. cbn [app sep startsWith].
      apply N.eqb_neq in Hx. rewrite N.eqb_sym in Hx. by rewrite Hx. }
    assert (Hend : endsWith (sep ++ join sep N) sep = false).
    { rewrite Hj', app_assoc, endsWith_snoc. apply N.eqb_neq. congruence. }
    assert (Hfin : forall c, c = sep ++ join sep N ++ sep \/ c = sep ++ join sep N ->
      (let clean := if endsWith c sep && negb (streq c sep)
                    then slice_0_m1 c else c in
       if streq clean [] then sep else clean) = sep ++ join sep N).
    { intros c [-> | ->]; cbv zeta.
      - assert (He : endsWith (sep ++ join sep N ++ sep) sep = true).
        { unfold endsWith. rewrite !rev_app_distr. reflexivity. }
        assert (Hs : streq (sep ++ join sep N ++ sep) sep = false).
        { apply streq_false. intros H. apply (f_equal length) in H.
          rewrite !length_app in H. simpl in H. lia. }
        rewrite He, Hs. cbn [negb andb]. unfold slice_0_m1.
        replace (sep ++ join sep N ++ sep) with ((sep ++ join sep N) ++ [SLASH])
          by (by rewrite <- app_assoc).
        rewrite removelast_last.
        by destruct (streq (sep ++ join sep N) []) eqn:Hn;
          [apply streq_true in Hn|].
      - rewrite Hend. cbn [andb].
        by destruct (streq (sep ++ join sep N) []) eqn:Hn;
          [apply streq_true in Hn|]. }
    destruct (isAbsolute d), (endsWith d sep); cbv zeta.
    + rewrite startsWith_app. apply Hfin. by left.
    + rewrite startsWith_app. apply Hfin. by right.
    + rewrite Hstart. apply Hfin. by left.
    + pose proof (Hstart []) as Hs0. rewrite app_nil_r in Hs0. rewrite Hs0.
      apply Hfin. by right.
Qed.

Lemma sanitiseUrl_route_shape u c :
  sanitiseUrl u = Some c -> isRoute c = true.
Proof.
  rewrite sanitiseUrl_unfold.
  destruct (decodeURIComponent _) as [d|]; [|done]. intros [= <-].
  destruct (finish_cases d) as [-> | [-> | (N & Hne & HN & ->)]];
    [reflexivity|reflexivity|].
  unfold isRoute. change (lit "/") with sep.
  rewrite startsWith_app. cbn [andb].
  destruct (join_seg_last N Hne HN) as (t' & y & Hy & ->).
  rewrite app_assoc, endsWith_snoc.
  apply N.eqb_neq in Hy. rewrite N.eqb_sym in Hy. by rewrite Hy.
Qed.

(** X2.  Every path the sanitiser returns has the form of a route: it
    starts with a slash and does not end with one, unless it is the root
    itself. *)
Theorem sanitiseUrl_is_route u c :
  sanitiseUrl u = Some c -> isRoute c = true.
Proof. apply sanitiseUrl_route_shape. Qed.

Lemma sanitiseUrl_is_route_witness :
  sanitiseUrl (lit "a//b/../c/?q=1#f") = Some (lit "/a/c")
  /\ isRoute (lit "/a/c") = true.
Proof.
  split; [reflexivity|].
  by apply (sanitiseUrl_is_route (lit "a//b/../c/?q=1#f")).
Defined.

End RouteProps.

(** ** Queries, fragments, escapes and trailing slashes *)

Module UrlProps.
Import JS Path Replace Eff Common Spec Further StringFacts PathFacts Sanitiser
  Handler Sample.

Lemma includes_char_iff s c : includes s [c] = false <-> c ∉ s.
Proof.
  induction s as [|x r IH].
  - split; [intros _; apply not_elem_of_nil|done].
  - cbn [includes startsWith]. rewrite andb_true_r, orb_false_iff, IH.
    rewrite not_elem_of_cons, N.eqb_neq. tauto.
Qed.

Lemma hd_split_app c a b :
  c ∉ a -> hd [] (split c (a ++ b)) = a ++ hd [] (split c b).
Proof.
  intros Ha. induction a as [|x a IH]; [done|].
  apply not_elem_of_cons in Ha as [Hx Ha].
  cbn [app split]. destruct (N.eqb_spec x c); [congruence|].
  specialize (IH Ha). destruct (split c (a ++ b)) as [|w ws] eqn:Hs.
  - by apply split_not_nil in Hs.
  - cbn [hd] in *. by rewrite IH.
Qed.

Lemma hd_split_cut c a b : c ∉ a -> hd [] (split c (a ++ c :: b)) = a.
Proof.
  intros Ha. rewrite hd_split_app by done. cbn [split].
  rewrite N.eqb_refl. cbn [hd]. by rewrite app_nil_r.
Qed.

(** The piece before the first separator is made of code units of the
    text. *)
Lemma hd_split_subset c x s : x ∉ s -> x ∉ hd [] (split c s).
Proof.
  induction s as [|y r IH]; intros Hx; [done|].
  apply not_elem_of_cons in Hx as [Hy Hr]. cbn [split].
  destruct (y =? c); [apply not_elem_of_nil|].
  specialize (IH Hr). destruct (split c r) as [|w ws]; cbn [hd] in *.
  - apply not_elem_of_cons. split; [done|apply not_elem_of_nil].
  - by apply not_elem_of_cons.
Qed.

Lemma hd_split_sep c a b :
  hd [] (split c (a ++ c :: b)) = hd [] (split c a).
Proof.
  induction a as [|x a IH]; cbn [app split].
  - by rewrite N.eqb_refl.
  - destruct (x =? c); [done|].
    destruct (split c (a ++ c :: b)) as [|w ws] eqn:H1;
      [by apply split_not_nil in H1|].
    destruct (split c a) as [|w' ws'] eqn:H2;
      [by apply split_not_nil in H2|].
    cbn [hd] in *. by rewrite IH.
Qed.

Lemma hd_split_in c a b :
  c ∈ a -> hd [] (split c (a ++ b)) = hd [] (split c a).
Proof.
  intros Hc. apply list_elem_of_split in Hc as (a1 & a2 & ->).
  by rewrite <- app_assoc, <- app_comm_cons, !hd_split_sep.
Qed.

(** X3.  The sanitiser does not look at the query or at the fragment:
    whatever the URL, a question mark or a hash put after it, with anything
    behind, leaves the result as it was. *)
Theorem sanitiseUrl_ignores_query_and_fragment p q :
  sanitiseUrl (p ++ lit "?" ++ q) = sanitiseUrl p
  /\ sanitiseUrl (p ++ lit "#" ++ q) = sanitiseUrl p.
Proof.
  rewrite !sanitiseUrl_unfold. split.
  - change (p ++ lit "?" ++ q) with (p ++ QMARK :: q).
    by rewrite hd_split_sep.
  - change (p ++ lit "#" ++ q) with (p ++ HASH :: q).
    destruct (decide (QMARK ∈ p)) as [Hin|Hout].
    + by rewrite hd_split_in.
    + rewrite (hd_split_app QMARK) by done.
      rewrite (hd_split_no_sep QMARK p) by done.
      change (split QMARK (HASH :: q))
        with (match split QMARK q with
              | [] => [[HASH]]
              | w :: ws => (HASH :: w) :: ws
              end).
      destruct (split QMARK q) as [|w ws]; cbn [hd]; by rewrite hd_split_sep.
Qed.

(** X4.  Only a percent sign can make the sanitiser fail: a URL without one
    is always given a route, and neither handler answers it with 400. *)
Theorem plain_url_is_accepted (E : Env) req fs :
  includes (url req) (lit "%") = false ->
  (exists c, sanitiseUrl (url req) = Some c)
  /\ (forall st, statusOf (fst (Hardened.handler E req fs st)) <> Some 400)
  /\ (forall st, statusOf (fst (Legacy.handler E req fs st)) <> Some 400).
Proof.
  intros Hp. apply includes_char_iff in Hp.
  assert (Hs : exists c, sanitiseUrl (url req) = Some c).
  { rewrite sanitiseUrl_unfold, decode_no_percent; [by eexists|].
    by do 2 apply hd_split_subset. }
  split; [done|]. destruct Hs as [c Hc]. split; intros st.
  - rewrite handler_unfold, Hc.
    destruct (negb _); [done|].
    destruct (Hardened.routeToFile E c); [|done].
    destruct (negb _); [done|].
    destruct (Hardened.buildPage _ _ _ _ _) as [[page|] s1]; [|done].
    cbn. by destruct (bool_decide _).
  - rewrite legacy_handler_unfold, Hc.
    destruct (negb _); [done|].
    destruct (Legacy.routeToFile E c); [|done].
    destruct (negb _); [done|].
    by destruct (Legacy.buildPage _ _ _ _ _) as [[page|] s1].
Qed.

Lemma plain_url_is_accepted_witness :
  exists c, sanitiseUrl (url (get "/a/../b?x#y")) = Some c.
Proof.
  apply (plain_url_is_accepted E0 (get "/a/../b?x#y") fs0). reflexivity.
Defined.

(** The route of a URL that starts with a slash: a slash and proper names
    joined by slashes. *)
Lemma sanitiseUrl_absolute_shape p q :
  isAbsolute p = true ->
  sanitiseUrl p = Some q ->
  exists C, forallb properName C = true /\ q = sep ++ join sep C.
Proof.
  intros Hp Hq. rewrite sanitiseUrl_unfold in Hq.
  destruct (decodeURIComponent _) as [d|] eqn:Hd; [|done].
  injection Hq as <-.
  assert (Hda : isAbsolute d = true).
  { eapply decode_absolute; [|exact Hd].
    apply hd_split_absolute; [done|]. by apply hd_split_absolute. }
  exists (normalizeSegs false (split SLASH d) []). split.
  - apply normalizeSegs_keeps_proper; [apply split_pieces|done].
  - by apply finish_absolute.
Qed.

(** X5.  A URL that starts with a slash is sanitised to a route without
    empty, [.] or [..] segments: the route is a slash followed by proper
    names joined by slashes. *)
Theorem sanitiseUrl_removes_dot_segments p q :
  startsWith p (lit "/") = true ->
  sanitiseUrl p = Some q ->
  forallb properName (segments q) = true
  /\ q = lit "/" ++ join (lit "/") (segments q).
Proof.
  intros Hp Hq.
  destruct (sanitiseUrl_absolute_shape p q Hp Hq) as (C & HC & ->).
  by rewrite segments_resolved.
Qed.

Lemma sanitiseUrl_removes_dot_segments_witness :
  forallb properName (segments (lit "/etc/passwd")) = true.
Proof.
  apply (sanitiseUrl_removes_dot_segments (lit "/%2e%2e/../etc/./passwd"));
    reflexivity.
Defined.

End UrlProps.

(** ** Trailing slashes *)

Module SlashProps.
Import JS Path Replace Eff Common Spec Further StringFacts PathFacts Sanitiser
  UrlProps Sample.

Lemma unescape_snoc s :
  unescape (s ++ [SLASH])
  = match unescape s with
    | Some ts => Some (ts ++ [Lit SLASH])
    | None => None
    end.
Proof.
  remember (length s) as n eqn:Hn. revert s Hn.
  induction n as [n IH] using lt_wf_ind. intros s Hn.
  destruct s as [|c r]; [reflexivity|].
  cbn [app unescape]. destruct (c =? PERCENT).
  - destruct r as [|h1 [|h2 r']].
    + reflexivity.
    + cbn [app]. by destruct (hexval h1).
    + cbn [app]. destruct (hexval h1); [|done]. destruct (hexval h2); [|done].
      rewrite (IH (length r')); [|simpl in Hn; lia|done].
      by destruct (unescape r').
  - rewrite (IH (length r)); [|simpl in Hn; lia|done].
    by destruct (unescape r).
Qed.

Lemma utf8_snoc ts c :
  utf8 (ts ++ [Lit c])
  = match utf8 ts with
    | Some o => Some (o ++ [c])
    | None => None
    end.
Proof.
  remember (length ts) as n eqn:Hn. revert ts Hn.
  induction n as [n IH] using lt_wf_ind. intros ts Hn.
  assert (Hrec : forall r (pre : jsstring), (length r < n)%nat ->
    match utf8 (r ++ [Lit c]) with
    | Some o => Some (pre ++ o)
    | None => None
    end
    = match match utf8 r with
            | Some o => Some (pre ++ o)
            | None => None
            end with
      | Some o => Some (o ++ [c])
      | None => None
      end).
  { intros r pre Hr. rewrite (IH (length r)) by done.
    destruct (utf8 r); [|done]. by rewrite app_assoc. }
  destruct ts as [|t r]; [reflexivity|].
  simpl in Hn. destruct t as [l|b]; cbn [app utf8].
  - apply (Hrec r [l]). lia.
  - destruct (b <? 128); [apply (Hrec r [b]); lia|].
    destruct (b <? 192); [done|].
    destruct (b <? 224).
    { destruct r as [|t1 r']; [done|]. cbn [app].
      destruct (cont t1); [|done]. destruct (_ <? 128); [done|].
      apply Hrec. simpl in Hn. lia. }
    destruct (b <? 240).
    { destruct r as [|t1 [|t2 r']]; [done| |].
      - cbn [app]. by destruct (cont t1).
      - cbn [app]. destruct (cont t1); [|done]. destruct (cont t2); [|done].
        destruct (_ || _); [done|]. apply Hrec. simpl in Hn. lia. }
    destruct (b <? 248); [|done].
    destruct r as [|t1 [|t2 [|t3 r']]]; [done| | |].
    + cbn [app]. by destruct (cont t1).
    + cbn [app]. destruct (cont t1); [|done]. by destruct (cont t2).
    + cbn [app]. destruct (cont t1); [|done]. destruct (cont t2); [|done].
      destruct (cont t3); [|done]. destruct (_ || _); [done|].
      apply Hrec. simpl in Hn. lia.
Qed.

Lemma decode_snoc s :
  decodeURIComponent (s ++ [SLASH])
  = match decodeURIComponent s with
    | Some d => Some (d ++ [SLASH])
    | None => None
    end.
Proof.
  unfold decodeURIComponent. rewrite unescape_snoc.
  destruct (unescape s) as [ts|]; [|done]. apply utf8_snoc.
Qed.

Lemma finish_snoc d :
  isAbsolute d = true -> finish (d ++ [SLASH]) = finish d.
Proof.
  intros Hd.
  assert (Hd' : isAbsolute (d ++ [SLASH]) = true).
  { apply startsWith_spec in Hd as [r ->]. rewrite <- app_assoc.
    apply isAbsolute_cons. }
  rewrite !finish_absolute by done.
  rewrite split_app_sep. cbn [split]. by rewrite normalizeSegs_nil_r.
Qed.

(** X6.  A slash put after a URL that starts with a slash does not change
    the route (nor whether the URL is rejected): [/a/b/] and [/a/b] are the
    same route, also with escapes, a query or a fragment in the URL. *)
Theorem sanitiseUrl_trailing_slash p :
  startsWith p (lit "/") = true ->
  sanitiseUrl (p ++ lit "/") = sanitiseUrl p.
Proof.
  intros Hp. change (lit "/") with [SLASH] in *.
  rewrite !sanitiseUrl_unfold.
  destruct (decide (QMARK ∈ p)) as [Hq|Hq]; [by rewrite hd_split_in|].
  rewrite (hd_split_app QMARK) by done.
  rewrite (hd_split_no_sep QMARK p) by done.
  change (hd [] (split QMARK [SLASH])) with [SLASH].
  destruct (decide (HASH ∈ p)) as [Hh|Hh]; [by rewrite hd_split_in|].
  rewrite (hd_split_app HASH) by done.
  rewrite (hd_split_no_sep HASH p) by done.
  change (hd [] (split HASH [SLASH])) with [SLASH].
  rewrite decode_snoc.
  destruct (decodeURIComponent p) as [d|] eqn:Hd; [|done].
  f_equal. apply finish_snoc. by eapply decode_absolute.
Qed.

Lemma sanitiseUrl_trailing_slash_witness :
  sanitiseUrl (lit "/caf%C3%A9/x" ++ lit "/") = sanitiseUrl (lit "/caf%C3%A9/x").
Proof. by apply sanitiseUrl_trailing_slash. Defined.

End SlashProps.

(** ** Further properties of the resolvers *)

Module ResolverProps.
Import JS Path Replace Eff Common Spec Further StringFacts PathFacts Sanitiser
  Resolver Sample.

Lemma join_snoc_app sp C l x :
  join sp (C ++ [l]) ++ x = join sp (C ++ [l ++ x]).
Proof.
  induction C as [|y C IH]; [reflexivity|].
  destruct C as [|z C'].
  - simpl. by rewrite <- !app_assoc.
  - change ((y :: z :: C') ++ [l]) with (y :: z :: (C' ++ [l])).
    change ((y :: z :: C') ++ [l ++ x]) with (y :: z :: (C' ++ [l ++ x])).
    rewrite !join_cons_cons. change (z :: C' ++ [l]) with ((z :: C') ++ [l]).
    change (z :: C' ++ [l ++ x]) with ((z :: C') ++ [l ++ x]).
    rewrite <- IH. by rewrite <- !app_assoc.
Qed.

Lemma commonPrefix_app P D : commonPrefix P (P ++ D) = length P.
Proof.
  induction P as [|x P IH]; [by destruct D|].
  cbn [app commonPrefix length]. by rewrite streq_refl, IH.
Qed.

Lemma endsWith_app s x : endsWith (s ++ x) x = true.
Proof. unfold endsWith. rewrite rev_app_distr. apply startsWith_app. Qed.

(** The document of a canonical route, with its extension: proper names
    joined by slashes. *)
Lemma document_segments C :
  forallb properName C = true ->
  exists D,
    D <> [] /\ forallb properName D = true
    /\ routeName (sep ++ join sep C) ++ lit ".md" = join sep D.
Proof.
  intros HC. unfold routeName.
  destruct C as [|x r] eqn:HCeq.
  - exists [lit "index.md"]. by repeat split.
  - rewrite <- HCeq in *. assert (Hne : C <> []) by (by rewrite HCeq).
    clear HCeq.
    assert (Hs : streq (sep ++ join sep C) (lit "/") = false).
    { apply streq_false. intros H. apply (f_equal length) in H.
      rewrite length_app in H. cbn in H.
      pose proof (join_proper_not_nil C Hne HC) as Hj.
      destruct (join sep C); [done|]. simpl in H. lia. }
    rewrite Hs. unfold slice1. cbn [sep app tl].
    destruct (exists_last Hne) as (C0 & l & ->).
    rewrite forallb_app_proper in HC. apply andb_true_iff in HC as [HC0 Hl].
    cbn [forallb] in Hl. rewrite andb_true_r in Hl.
    exists (C0 ++ [l ++ lit ".md"]). split; [by destruct C0|]. split.
    + rewrite forallb_app_proper, HC0. cbn [forallb andb].
      rewrite md_proper; [done|]. apply properName_spec in Hl. tauto.
    + apply join_snoc_app.
Qed.

Section Route.
Variable E : Env.
Hypothesis Habs : isAbsolute (dirname E) = true.

(** Below the content root, a relative path of proper names resolves to
    the root followed by it; both resolvers compute that path. *)
Lemma resolve_below D :
  D <> [] -> forallb properName D = true ->
  resolve (cwd E) [pagesDir E; join sep D] = pagesDir E ++ sep ++ join sep D
  /\ pjoin [pagesDir E; join sep D] = pagesDir E ++ sep ++ join sep D.
Proof.
  intros Hne HD. destruct (pagesDir_shape E Habs) as (P0 & HP0 & HP).
  assert (HPp : forallb properName (P0 ++ [lit "pages"]) = true).
  { rewrite forallb_app_proper, HP0. reflexivity. }
  set (P := P0 ++ [lit "pages"]) in *.
  assert (HPne : P <> []) by (subst P; by destruct P0).
  assert (Hj : join sep D <> []) by (by apply join_proper_not_nil).
  assert (Hrel : isAbsolute (join sep D) = false).
  { destruct (isAbsolute (join sep D)) eqn:Ha; [|done].
    apply startsWith_spec in Ha as [t Ht].
    destruct D as [|x D']; [done|]. cbn [forallb] in HD.
    apply andb_true_iff in HD as [Hx _].
    apply properName_spec in Hx as (Hx1 & _ & _ & Hx4).
    destruct (join_cons sep x D') as [t' Ht']. rewrite Ht' in Ht.
    destruct x as [|c x']; [done|]. injection Ht as -> _.
    exfalso. apply Hx4. by left. }
  assert (Hsplit :
    normalizeSegs false
      (split SLASH (sep ++ join sep P ++ SLASH :: join sep D)) []
    = P ++ D).
  { rewrite split_sep_cons, split_app_sep.
    rewrite !split_join by (done || by apply forallb_proper_no_slash).
    cbn [normalizeSegs is_empty orb]. apply normalizeSegs_id.
    rewrite forallb_app_proper. by rewrite HPp, HD. }
  assert (Hshape : sep ++ join sep (P ++ D) = pagesDir E ++ sep ++ join sep D).
  { rewrite HP, join_concat by done. by rewrite <- app_assoc. }
  split.
  - unfold resolve. cbn [rev app].
    rewrite resolveLoop_rel by (by apply is_empty_false || done).
    rewrite resolveLoop_abs by (rewrite HP; apply isAbsolute_cons).
    cbn [negb]. unfold normalizeString. rewrite app_nil_r, HP.
    replace ((sep ++ join sep P) ++ sep ++ join sep D ++ sep)
      with (sep ++ (join sep P ++ SLASH :: join sep D) ++ SLASH :: [])
      by (unfold sep; by rewrite <- !app_assoc).
    rewrite app_assoc, split_app_sep. cbn [split].
    rewrite normalizeSegs_nil_r, Hsplit. by rewrite Hshape, HP.
  - rewrite pjoin_two;
      [|rewrite HP; by apply is_empty_false|by apply is_empty_false].
    unfold normalize.
    assert (Hab : isAbsolute (pagesDir E ++ sep ++ join sep D) = true).
    { rewrite HP, <- app_assoc. apply isAbsolute_cons. }
    rewrite (isAbsolute_not_empty _ Hab), Hab. cbn [negb].
    unfold normalizeString. rewrite HP.
    replace ((sep ++ join sep P) ++ sep ++ join sep D)
      with (sep ++ join sep P ++ SLASH :: join sep D)
      by (unfold sep; by rewrite <- !app_assoc).
    rewrite Hsplit.
    assert (Hq : is_empty (join sep (P ++ D)) = false).
    { apply is_empty_false, join_proper_not_nil; [by destruct P|].
      rewrite forallb_app_proper. by rewrite HPp, HD. }
    rewrite Hq.
    assert (Ht : endsWith (sep ++ join sep P ++ SLASH :: join sep D) sep = false).
    { change (sep ++ join sep P ++ SLASH :: join sep D)
        with (sep ++ join sep P ++ sep ++ join sep D).
      rewrite <- join_concat by done.
      apply endsWith_join_proper; [by destruct P|].
      rewrite forallb_app_proper. by rewrite HPp, HD. }
    rewrite Ht. by rewrite Hshape, HP.
Qed.

Lemma resolvers_on_canonical_route C :
  forallb properName C = true ->
  let c := lit "/" ++ join (lit "/") C in
  let file := pagesDir E ++ lit "/" ++ routeName c ++ lit ".md" in
  Legacy.routeToFile E c = Some file
  /\ Hardened.routeToFile E c
     = (if startsWith (routeName c ++ lit ".md") (lit "..") then None
        else Some file)
  /\ insideRoot (pagesDir E) file = true.
Proof.
  intros HC c file. subst c file. change (lit "/") with sep.
  destruct (document_segments C HC) as (D & HDne & HD & HDj).
  destruct (resolve_below D HDne HD) as [Hres Hpj].
  destruct (pagesDir_shape E Habs) as (P0 & HP0 & HP).
  assert (HPp : forallb properName (P0 ++ [lit "pages"]) = true).
  { rewrite forallb_app_proper, HP0. reflexivity. }
  rewrite HDj. split; [|split].
  - unfold Legacy.routeToFile. cbv zeta. rewrite HDj.
    change (pjoin _) with (pjoin [pagesDir E; join sep D]).
    by rewrite Hpj, startsWith_app.
  - unfold Hardened.routeToFile. cbv zeta. rewrite HDj.
    change (resolve (cwd E) _) with (resolve (cwd E) [pagesDir E; join sep D]).
    rewrite Hres.
    assert (Hrel : relative (cwd E) (pagesDir E)
                     (pagesDir E ++ sep ++ join sep D) = join sep D).
    { assert (Hcand : pagesDir E ++ sep ++ join sep D
                      = sep ++ join sep ((P0 ++ [lit "pages"]) ++ D)).
      { rewrite HP, (join_concat sep (P0 ++ [lit "pages"]) D);
          [|by destruct P0|done].
        by rewrite <- app_assoc. }
      rewrite Hcand, HP.
      unfold relative.
      assert (Hne : streq (sep ++ join sep (P0 ++ [lit "pages"]))
                      (sep ++ join sep ((P0 ++ [lit "pages"]) ++ D)) = false).
      { apply streq_false. intros H. apply app_inv_head in H.
        apply (f_equal (split SLASH)) in H.
        rewrite !split_join in H.
        - apply (f_equal length) in H. rewrite !length_app in H.
          destruct D; [done|]. simpl in H. lia.
        - by destruct P0.
        - apply forallb_proper_no_slash. rewrite forallb_app_proper.
          by rewrite HPp, HD.
        - by destruct P0.
        - by apply forallb_proper_no_slash. }
      rewrite Hne, !resolve_resolved, Hne, !segments_resolved;
        try done; try (rewrite forallb_app_proper; by rewrite HPp, HD).
      rewrite commonPrefix_app, Nat.sub_diag, drop_app_length. done. }
    rewrite Hrel.
    assert (Hna : isAbsolute (join sep D) = false).
    { destruct (isAbsolute (join sep D)) eqn:Ha; [|done].
      apply startsWith_spec in Ha as [t Ht].
      destruct D as [|x D']; [done|]. cbn [forallb] in HD.
      apply andb_true_iff in HD as [Hx _].
      apply properName_spec in Hx as (Hx1 & _ & _ & Hx4).
      destruct (join_cons sep x D') as [t' Ht']. rewrite Ht' in Ht.
      destruct x as [|c x']; [done|]. injection Ht as -> _.
      exfalso. apply Hx4. by left. }
    rewrite Hna, orb_false_r. done.
  - by apply insideRoot_intro.
Qed.

(** X7.  On a route made of proper names (what the sanitiser returns for a
    URL that starts with a slash), both resolvers name the same file: the
    content root, a slash, the document name and [.md].  The legacy resolver
    always returns it; the hardened resolver returns it unless the document
    name begins with two dots, in which case it refuses. *)
Theorem routeToFile_on_canonical_route C :
  forallb properName C = true ->
  let c := lit "/" ++ join (lit "/") C in
  let file := pagesDir E ++ lit "/" ++ routeName c ++ lit ".md" in
  Legacy.routeToFile E c = Some file
  /\ Hardened.routeToFile E c
     = (if startsWith (routeName c ++ lit ".md") (lit "..") then None
        else Some file)
  /\ insideRoot (pagesDir E) file = true.
Proof. apply resolvers_on_canonical_route. Qed.

(** X8.  For a URL that starts with a slash, the file the legacy resolver
    returns lies strictly below the content root: the comparison of string
    prefixes is enough for such URLs.  The hardened resolver returns the
    same file or refuses. *)
Theorem legacy_resolver_safe_on_slash_urls u c :
  startsWith u (lit "/") = true ->
  sanitiseUrl u = Some c ->
  exists f,
    Legacy.routeToFile E c = Some f
    /\ f = pagesDir E ++ lit "/" ++ routeName c ++ lit ".md"
    /\ insideRoot (pagesDir E) f = true
    /\ (Hardened.routeToFile E c = Some f \/ Hardened.routeToFile E c = None).
Proof.
  intros Hu Hc.
  destruct (UrlProps.sanitiseUrl_absolute_shape u c Hu Hc) as (C & HC & ->).
  destruct (resolvers_on_canonical_route C HC) as (Hl & Hh & Hin).
  change (lit "/") with sep in *.
  eexists. split; [exact Hl|]. split; [done|]. split; [exact Hin|].
  rewrite Hh. destruct (startsWith _ (lit "..")); [by right|by left].
Qed.

(** The file a resolver returns is a markdown file. *)
Lemma hardened_file_is_markdown c f :
  Hardened.routeToFile E c = Some f -> endsWith f (lit ".md") = true.
Proof.
  unfold Hardened.routeToFile. intros H.
  destruct (candidate_shape E Habs (routeName c)) as (C0 & l & HC & Hcand).
  rewrite Hcand in H.
  destruct (_ || _); [done|]. injection H as <-.
  destruct (join_snoc sep C0 (l ++ lit ".md")) as [t Ht].
  unfold jsstring in *. rewrite Ht.
  change (SLASH :: t ++ l ++ lit ".md") with (sep ++ t ++ l ++ lit ".md").
  rewrite !app_assoc. apply endsWith_app.
Qed.

Lemma legacy_file_is_markdown c f :
  Legacy.routeToFile E c = Some f -> endsWith f (lit ".md") = true.
Proof.
  unfold Legacy.routeToFile. cbv zeta.
  destruct (negb _); [done|]. intros [= <-].
  destruct (pagesDir_shape E Habs) as (P0 & HP0 & HP).
  set (x := routeName c).
  assert (Hmd : SLASH ∉ lit ".md").
  { intros H. apply list_elem_of_In in H. simpl in H. intuition discriminate. }
  destruct (split_app_no_sep SLASH x (lit ".md") Hmd) as (Y & l & HY1 & HY2).
  assert (Hl : SLASH ∉ l).
  { pose proof (split_pieces SLASH x) as Hs. rewrite HY1 in Hs.
    apply Forall_app in Hs as [_ Hs]. by inversion Hs. }
  rewrite pjoin_two;
    [|rewrite HP; by apply is_empty_false|by destruct x].
  unfold normalize.
  assert (Hab : isAbsolute (pagesDir E ++ sep ++ x ++ lit ".md") = true).
  { rewrite HP, <- app_assoc. apply isAbsolute_cons. }
  rewrite (isAbsolute_not_empty _ Hab), Hab. cbn [negb].
  assert (Ht : endsWith (pagesDir E ++ sep ++ x ++ lit ".md") sep = false).
  { unfold endsWith. rewrite !rev_app_distr. reflexivity. }
  rewrite Ht. unfold normalizeString.
  change (pagesDir E ++ sep ++ x ++ lit ".md")
    with (pagesDir E ++ SLASH :: (x ++ lit ".md")).
  rewrite split_app_sep, HY2, app_assoc.
  rewrite normalizeSegs_last by (by apply md_proper).
  match goal with |- context [normalizeSegs false ?a []] =>
    set (N := normalizeSegs false a []) end.
  destruct (join_snoc sep N (l ++ lit ".md")) as [t Hj]. rewrite Hj.
  assert (Hq : is_empty (t ++ l ++ lit ".md") = false).
  { apply is_empty_false. intros H. apply (f_equal length) in H.
    rewrite !length_app in H. simpl in H. lia. }
  rewrite Hq. rewrite !app_assoc. apply endsWith_app.
Qed.

(** X9.  Whatever the route, a file returned by either resolver has the
    extension [.md]: the servers read no other kind of document. *)
Theorem resolved_file_is_markdown c f :
  Hardened.routeToFile E c = Some f \/ Legacy.routeToFile E c = Some f ->
  endsWith f (lit ".md") = true.
Proof.
  intros [H|H]; [by eapply hardened_file_is_markdown
                |by eapply legacy_file_is_markdown].
Qed.

End Route.

Lemma legacy_resolver_safe_on_slash_urls_witness :
  exists f,
    Legacy.routeToFile E0 (lit "/etc/passwd") = Some f
    /\ insideRoot (pagesDir E0) f = true.
Proof.
  destruct (legacy_resolver_safe_on_slash_urls E0 eq_refl
              (lit "/a/%2e%2e/../etc/passwd") (lit "/etc/passwd")
              eq_refl eq_refl) as (f & Hf & _ & Hin & _).
  by exists f.
Defined.

Lemma resolved_file_is_markdown_witness :
  endsWith (lit "/srv/markd/pages-evil/x.md") (lit ".md") = true.
Proof.
  apply (resolved_file_is_markdown E0 eq_refl (lit "/../pages-evil/x")).
  right. reflexivity.
Defined.

Lemma routeToFile_on_canonical_route_witness :
  Legacy.routeToFile E0 (lit "/docs/intro")
  = Some (lit "/srv/markd/pages/docs/intro.md")
  /\ Hardened.routeToFile E0 (lit "/docs/intro")
     = Some (lit "/srv/markd/pages/docs/intro.md").
Proof.
  destruct (routeToFile_on_canonical_route E0 eq_refl
              [lit "docs"; lit "intro"] eq_refl) as (Hl & Hh & _).
  split; [exact Hl|exact Hh].
Defined.

End ResolverProps.

(** ** Further properties of the page cache *)

Module CacheMore.
Import JS Path Replace Eff Common Spec Further StringFacts PathFacts Sanitiser
  Cache Handler Sample.

Section Hard.
Variable E : Env.

(** What [render] does to the cache: nothing when it fails, one binding of
    the route when it succeeds. *)
Lemma render_cache fs route md (st st' : state Hardened.CacheEntry) r :
  render E route md fs st = (r, st') ->
  (failed r = true /\ pageCache st' = pageCache st)
  \/ (exists page, r = Ok page
                   /\ pageCache st' = <[route := page]> (pageCache st)).
Proof.
  unfold render, Hardened.renderTemplate, Hardened.marked, Hardened.sanitize.
  unfold_eff. cbn [pageCache trace].
  destruct (marked_parse E md) as [rawHtml|];
    [|intros [= <- <-]; by left].
  destruct (sanitizeHtml E _ rawHtml) as [htmlBody|];
    [|intros [= <- <-]; by left].
  match goal with |- context [Hardened.buildNav E fs ?s] =>
    destruct (buildNav_total E fs s) as (nav & tr & ->) end.
  cbn [pageCache trace]. intros [= <- <-]. right. by eexists.
Qed.

Lemma buildPage_cache fs route filePath (st st' : state Hardened.CacheEntry) r :
  Hardened.buildPage E route filePath fs st = (r, st') ->
  pageCache st' = pageCache st
  \/ (exists page, r = Ok page
                   /\ pageCache st' = <[route := page]> (pageCache st)).
Proof.
  rewrite buildPage_unfold.
  destruct (readFileSync fs filePath) as [md|]; [|intros [= <- <-]; by left].
  assert (Hr : forall s,
    render E route md fs (logged (EvRead filePath) st) = (r, s) ->
    pageCache s = pageCache st
    \/ (exists page, r = Ok page
                     /\ pageCache s = <[route := page]> (pageCache st))).
  { intros s Hs. apply render_cache in Hs as [[_ Hs]|Hs]; [by left|by right]. }
  destruct (pageCache st !! route) as [c|]; [|apply Hr].
  destruct (streq _ _); [intros [= <- <-]; by left|apply Hr].
Qed.

Lemma buildPage_failed_cache fs route filePath (st st' : state Hardened.CacheEntry) :
  Hardened.buildPage E route filePath fs st = (Throw, st') ->
  pageCache st' = pageCache st.
Proof.
  intros H. by apply buildPage_cache in H as [H|(page & ? & _)].
Qed.

End Hard.

Section Leg.
Variable E : Env.

Lemma legacy_buildPage_cache fs route filePath (st st' : state Legacy.CacheEntry) r :
  Legacy.buildPage E route filePath fs st = (r, st') ->
  pageCache st' = pageCache st
  \/ (exists page, r = Ok page
        /\ pageCache st'
           = <[route := {| Legacy.hash :=
                             hashContent E (default [] (readFileSync fs filePath));
                           Legacy.html := page |}]> (pageCache st)).
Proof.
  rewrite legacy_buildPage_unfold.
  destruct (readFileSync fs filePath) as [md|]; [|intros [= <- <-]; by left].
  assert (Hr : forall s,
    legacyRender E route md fs (logged (EvRead filePath) st) = (r, s) ->
    pageCache s = pageCache st
    \/ (exists page, r = Ok page
          /\ pageCache s
             = <[route := {| Legacy.hash := hashContent E md;
                             Legacy.html := page |}]> (pageCache st))).
  { intros s. unfold legacyRender, Legacy.renderTemplate, Legacy.marked.
    unfold_eff. cbn [pageCache trace].
    destruct (marked_parse E md) as [htmlBody|];
      [|intros [= <- <-]; by left].
    intros [= <- <-]. right. by eexists. }
  cbn [default].
  destruct (pageCache st !! route) as [c|]; [|apply Hr].
  destruct (streq _ _); [intros [= <- <-]; by left|apply Hr].
Qed.

End Leg.

(** X10.  [buildPage] changes the cache at its own route at most: the
    entries of the other routes stay as they are, no entry is ever removed,
    and a call that fails leaves the whole cache as it was.  This holds for
    both servers. *)
Theorem buildPage_changes_its_route_only (E : Env) fs route filePath :
  (forall (st st' : state Hardened.CacheEntry) r,
      Hardened.buildPage E route filePath fs st = (r, st') ->
      (forall other, other <> route ->
                     pageCache st' !! other = pageCache st !! other)
      /\ (forall k, is_Some (pageCache st !! k) -> is_Some (pageCache st' !! k))
      /\ (failed r = true -> pageCache st' = pageCache st))
  /\ (forall (st st' : state Legacy.CacheEntry) r,
      Legacy.buildPage E route filePath fs st = (r, st') ->
      (forall other, other <> route ->
                     pageCache st' !! other = pageCache st !! other)
      /\ (forall k, is_Some (pageCache st !! k) -> is_Some (pageCache st' !! k))
      /\ (failed r = true -> pageCache st' = pageCache st)).
Proof.
  split; intros st st' r Hb.
  - apply buildPage_cache in Hb as [Hc|(page & -> & Hc)]; rewrite Hc.
    + by repeat split.
    + split; [intros other Ho; by rewrite lookup_insert_ne|].
      split; [|done]. intros k Hk.
      destruct (decide (route = k)) as [->|Hne];
        [by rewrite lookup_insert_eq|by rewrite lookup_insert_ne].
  - apply legacy_buildPage_cache in Hb as [Hc|(page & -> & Hc)]; rewrite Hc.
    + by repeat split.
    + split; [intros other Ho; by rewrite lookup_insert_ne|].
      split; [|done]. intros k Hk.
      destruct (decide (route = k)) as [->|Hne];
        [by rewrite lookup_insert_eq|by rewrite lookup_insert_ne].
Qed.

Lemma buildPage_changes_its_route_only_witness :
  pageCache (snd (Hardened.buildPage E0 (lit "/missing")
                    (lit "/srv/markd/pages/missing.md") fs0 warm)) !! lit "/"
  = pageCache warm !! lit "/".
Proof.
  destruct (buildPage_changes_its_route_only E0 fs0 (lit "/missing")
              (lit "/srv/markd/pages/missing.md")) as [Hh _].
  destruct (Hh warm _ _ ltac:(vm_compute; reflexivity)) as (Ho & _).
  apply (Ho (lit "/")). discriminate.
Defined.

End CacheMore.

(** ** The cache over a sequence of requests *)

Module Serving.
Import JS Path Replace Eff Common Spec Further StringFacts PathFacts Sanitiser
  Cache Handler RouteProps CacheMore Sample.

Section Hard.
Variable E : Env.

(** What the handler does to the cache: nothing, or one binding of the
    route of the request to a page rendered for it. *)
Lemma handler_cache req fs (st st' : state Hardened.CacheEntry) r :
  Hardened.handler E req fs st = (r, st') ->
  pageCache st' = pageCache st
  \/ (exists c page,
        sanitiseUrl (url req) = Some c
        /\ genuine E c page
        /\ pageCache st' = <[c := page]> (pageCache st)).
Proof.
  rewrite handler_unfold.
  destruct (negb _); [intros [= <- <-]; by left|].
  destruct (sanitiseUrl (url req)) as [c|] eqn:Hc; [|intros [= <- <-]; by left].
  destruct (Hardened.routeToFile E c) as [f|]; [|intros [= <- <-]; by left].
  destruct (negb _); [intros [= <- <-]; by left|].
  destruct (Hardened.buildPage E c f fs (logged (EvExists f) st))
    as [[page|] s1] eqn:Hb.
  - intros [= <- <-].
    apply buildPage_ok in Hb as (md & Hr & [H|H]).
    + destruct H as (_ & _ & _ & ->). by left.
    + destruct H as (_ & rawHtml & htmlBody & nav & Hm & Hz & Hh & Hhash & Het & Hcache).
      right. exists c, page. split; [done|]. split; [|done].
      by exists md, rawHtml, htmlBody, nav.
  - intros [= <- <-]. left. by apply buildPage_failed_cache in Hb.
Qed.

Lemma handler_keeps_inv req fs (st st' : state Hardened.CacheEntry) r :
  cacheInv E st ->
  Hardened.handler E req fs st = (r, st') ->
  cacheInv E st'.
Proof.
  intros Hinv Hh route e.
  apply handler_cache in Hh as [->|(c & page & Hc & Hg & ->)]; [apply Hinv|].
  destruct (decide (c = route)) as [->|Hne].
  - rewrite lookup_insert_eq. intros [= <-]. split; [|done].
    by eapply sanitiseUrl_route_shape.
  - rewrite lookup_insert_ne by done. apply Hinv.
Qed.

Lemma serve_keeps_inv reqs (st : state Hardened.CacheEntry) :
  cacheInv E st -> cacheInv E (snd (serve E reqs st)).
Proof.
  revert st. induction reqs as [|[req fs] rest IH]; intros st Hinv; [done|].
  cbn [serve].
  destruct (Hardened.handler E req fs st) as [r st1] eqn:Hh.
  specialize (IH st1 (handler_keeps_inv _ _ _ _ _ Hinv Hh)).
  by destruct (serve E rest st1).
Qed.

Lemma fresh_inv : cacheInv E fresh.
Proof. intros route e H. cbn in H. by rewrite lookup_empty in H. Qed.

(** With genuine entries in the cache, the ETag sent with a page is the
    quoted hash of the body sent. *)
Lemma handler_etag req fs (st st' : state Hardened.CacheEntry) resp :
  cacheInv E st ->
  Hardened.handler E req fs st = (Ok resp, st') ->
  status resp = 200 ->
  resHeaders resp
  = Hardened.securityHeaders (quoted (hashContent E (body resp))).
Proof.
  intros Hinv. rewrite handler_unfold.
  destruct (negb _); [intros [= <- <-]; done|].
  destruct (sanitiseUrl (url req)) as [c|] eqn:Hc; [|intros [= <- <-]; done].
  destruct (Hardened.routeToFile E c) as [f|]; [|intros [= <- <-]; done].
  destruct (negb _); [intros [= <- <-]; done|].
  destruct (Hardened.buildPage E c f fs (logged (EvExists f) st))
    as [[page|] s1] eqn:Hb; [|intros [= <- <-]; done].
  intros [= <- <-].
  destruct (bool_decide _); [done|]. intros _. cbn [okPage resHeaders body].
  f_equal.
  apply buildPage_ok in Hb as (md & Hr & [H|H]).
  - destruct H as (_ & Hcached & _ & _). cbn [logged pageCache] in Hcached.
    by destruct (Hinv _ _ Hcached) as (_ & (? & ? & ? & ? & _ & _ & _ & _ & Het)).
  - by destruct H as (_ & rawHtml & htmlBody & nav & _ & _ & _ & _ & Het & _).
Qed.

End Hard.

(** X11.  Whatever requests are served, one after the other, from an empty
    cache, and whatever the files are at each of them, every key of the cache
    has the form of a route and every entry is the rendering of some source
    text for its route: its page is the template filled for the route with
    the sanitised conversion of a text whose hash it carries, and its ETag is
    the quoted hash of that page. *)
Theorem cache_entries_are_genuine (E : Env) reqs :
  cacheInv E (snd (serve E reqs fresh)).
Proof. apply serve_keeps_inv, fresh_inv. Qed.

(** X12.  In every run from an empty cache, a page is always sent with the
    ETag of the very body sent: the security headers of a 200 answer carry
    the quoted hash of its body. *)
Theorem etag_matches_body (E : Env) reqs :
  Forall (fun r => forall resp,
            r = Ok resp -> status resp = 200 ->
            resHeaders resp
            = Hardened.securityHeaders (quoted (hashContent E (body resp))))
    (fst (serve E reqs fresh)).
Proof.
  assert (H : forall (st : state Hardened.CacheEntry),
    cacheInv E st ->
    Forall (fun r => forall resp,
              r = Ok resp -> status resp = 200 ->
              resHeaders resp
              = Hardened.securityHeaders (quoted (hashContent E (body resp))))
      (fst (serve E reqs st))).
  { induction reqs as [|[req fs] rest IH]; intros st Hinv; [constructor|].
    cbn [serve].
    destruct (Hardened.handler E req fs st) as [r st1] eqn:Hh.
    specialize (IH st1 (handler_keeps_inv _ _ _ _ _ _ Hinv Hh)).
    destruct (serve E rest st1) as [rs st2]. cbn [fst] in *.
    constructor; [|done]. intros resp -> Hs. by eapply handler_etag. }
  apply H, fresh_inv.
Qed.

(** X13.  A page answered with 200 is the page now cached for the route of
    the request: the body is the page of the entry and the ETag header is
    its ETag. *)
Theorem served_page_is_cached (E : Env) req fs
    (st st' : state Hardened.CacheEntry) resp :
  Hardened.handler E req fs st = (Ok resp, st') ->
  status resp = 200 ->
  exists c page,
    sanitiseUrl (url req) = Some c
    /\ pageCache st' !! c = Some page
    /\ body resp = Hardened.html page
    /\ resHeaders resp = Hardened.securityHeaders (Hardened.etag page).
Proof.
  rewrite handler_unfold.
  destruct (negb _); [intros [= <- <-]; done|].
  destruct (sanitiseUrl (url req)) as [c|] eqn:Hc; [|intros [= <- <-]; done].
  destruct (Hardened.routeToFile E c) as [f|]; [|intros [= <- <-]; done].
  destruct (negb _); [intros [= <- <-]; done|].
  destruct (Hardened.buildPage E c f fs (logged (EvExists f) st))
    as [[page|] s1] eqn:Hb; [|intros [= <- <-]; done].
  intros [= <- <-]. destruct (bool_decide _); [done|]. intros _.
  apply buildPage_cached in Hb as (md & _ & Hcached & _).
  by exists c, page.
Qed.

Lemma served_page_is_cached_witness :
  exists st' page,
    pageCache st' !! lit "/" = Some page
    /\ Hardened.html page = lit "<title>index</title><h1>Hi</h1>".
Proof.
  destruct (served_page_is_cached E0 (get "/") fs0 fresh _ _
              ltac:(vm_compute; reflexivity) eq_refl)
    as (c & page & Hc & Hcached & Hbody & _).
  injection Hc as <-. eexists _, page. split; [exact Hcached|].
  by rewrite <- Hbody.
Defined.

End Serving.

(** ** Further properties of the handlers *)

Module HandlerProps.
Import JS Path Replace Eff Common Spec Further StringFacts PathFacts Sanitiser
  Resolver Cache Touch Handler UrlProps ResolverProps CacheMore Sample.
Local Open Scope eff_scope.

(** X14.  A request answered with a page is answered with the same page,
    headers included, when it comes again and its document is still there
    with the same text, whatever else has changed in the files: the second
    answer is taken from the cache, nothing is rendered and the cache stays
    as it is. *)
Theorem repeated_request_same_answer (E : Env) req fsA fsB
    (st st1 : state Hardened.CacheEntry) r1 :
  Hardened.handler E req fsA st = (Ok r1, st1) ->
  status r1 = 200 ->
  (forall c f,
      sanitiseUrl (url req) = Some c -> Hardened.routeToFile E c = Some f ->
      existsSync fsB f = existsSync fsA f
      /\ readFileSync fsB f = readFileSync fsA f) ->
  exists st2,
    Hardened.handler E req fsB st1 = (Ok r1, st2)
    /\ List.filter isRender (trace st2) = List.filter isRender (trace st1)
    /\ pageCache st2 = pageCache st1.
Proof.
  intros H1 Hst Hag. rewrite handler_unfold in H1 |- *.
  destruct (negb (streq (method req) (lit "GET")));
    [injection H1 as <- <-; discriminate|].
  destruct (sanitiseUrl (url req)) as [c|];
    [|injection H1 as <- <-; discriminate].
  destruct (Hardened.routeToFile E c) as [f|] eqn:Hf;
    [|injection H1 as <- <-; discriminate].
  destruct (Hag c f eq_refl Hf) as [Hex Hrd]. rewrite Hex.
  destruct (negb (existsSync fsA f)); [injection H1 as <- <-; discriminate|].
  destruct (Hardened.buildPage E c f fsA (logged (EvExists f) st))
    as [[page|] s1] eqn:Hb; [|injection H1 as <- <-; discriminate].
  injection H1 as <- <-.
  apply buildPage_cached in Hb as (md & Hr & Hc & Hh).
  rewrite (buildPage_hit E fsB c f md (logged (EvExists f) s1) page);
    [|by rewrite Hrd|done|done].
  eexists. split; [reflexivity|]. split; [|done].
  unfold logged. cbn [trace]. rewrite !List.filter_app. cbn.
  by rewrite !app_nil_r.
Qed.

Lemma repeated_request_same_answer_witness :
  exists r1 st1 st2,
    Hardened.handler E1 (get "/") fs0 fresh = (Ok r1, st1)
    /\ Hardened.handler E1 (get "/") fs1 st1 = (Ok r1, st2)
    /\ pageCache st2 = pageCache st1.
Proof.
  eexists. eexists.
  destruct (repeated_request_same_answer E1 (get "/") fs0 fs1 fresh _ _
              ltac:(vm_compute; reflexivity) eq_refl) as (st2 & H2 & _ & Hc).
  - intros c f [= <-] [= <-]. split; reflexivity.
  - exists st2. split; [vm_compute; reflexivity|]. by split.
Defined.

(** X15.  The legacy server treats POST as GET: the answer and the state
    after it are those of the same request made with GET. *)
Theorem legacy_post_is_get (E : Env) req fs st :
  method req = lit "POST" ->
  Legacy.handler E req fs st
  = Legacy.handler E (withMethod (lit "GET") req) fs st.
Proof.
  intros Hm. rewrite !legacy_handler_unfold. cbn [withMethod method url].
  by rewrite Hm.
Qed.

Lemma legacy_post_is_get_witness :
  Legacy.handler E0 (withMethod (lit "POST") (get "/")) fs0 fresh
  = Legacy.handler E0 (get "/") fs0 fresh.
Proof.
  apply (legacy_post_is_get E0 (withMethod (lit "POST") (get "/"))).
  reflexivity.
Defined.

(** X16.  An answer of the hardened server that is not a page is one of
    five fixed answers (405, 400, 403, 404, 500) or the empty 304: nothing
    of the request, of the files or of the failure goes into it. *)
Theorem error_answers_are_fixed (E : Env) req fs st resp st' :
  Hardened.handler E req fs st = (Ok resp, st') ->
  status resp <> 200 ->
  resp = notModified \/ In resp errorResponses.
Proof.
  rewrite handler_unfold. unfold errorResponses.
  destruct (negb _); [intros [= <- <-] _; right; cbn; tauto|].
  destruct (sanitiseUrl (url req)) as [c|];
    [|intros [= <- <-] _; right; cbn; tauto].
  destruct (Hardened.routeToFile E c) as [f|];
    [|intros [= <- <-] _; right; cbn; tauto].
  destruct (negb _); [intros [= <- <-] _; right; cbn; tauto|].
  destruct (Hardened.buildPage E c f fs (logged (EvExists f) st))
    as [[page|] s1]; [|intros [= <- <-] _; right; cbn; tauto].
  intros [= <- <-]. destruct (bool_decide _); [by left|done].
Qed.

Lemma error_answers_are_fixed_witness :
  In (Hardened.plain 403 [] "Forbidden") errorResponses.
Proof.
  destruct (error_answers_are_fixed E0 (get "/..index") fs0 fresh
              (Hardened.plain 403 [] "Forbidden") fresh eq_refl
              ltac:(discriminate)) as [H|H]; [discriminate|exact H].
Defined.

(** X17.  The navigation block never fails and never touches the cache:
    it is empty when the navigation file is absent (only its existence is
    tested then) and when reading, converting or sanitising it throws, and
    it is the sanitised conversion of the file otherwise. *)
Theorem buildNav_degrades (E : Env) fs (st : state Hardened.CacheEntry) :
  exists nav tr,
    Hardened.buildNav E fs st
    = (Ok nav, {| pageCache := pageCache st; trace := tr |})
    /\ (existsSync fs (Hardened.navFile E) = false ->
        nav = [] /\ tr = trace st ++ [EvExists (Hardened.navFile E)])
    /\ nav = match readFileSync fs (Hardened.navFile E) with
             | Some md =>
                 if existsSync fs (Hardened.navFile E) then
                   match marked_parse E md with
                   | Some rawHtml =>
                       default [] (sanitizeHtml E (Hardened.navOptions E) rawHtml)
                   | None => []
                   end
                 else []
             | None => []
             end.
Proof.
  unfold Hardened.buildNav, Hardened.marked, Hardened.sanitize.
  unfold bind, ret, try_catch, log, lift, fs_existsSync, fs_readFileSync.
  cbn [pageCache trace].
  destruct (existsSync fs (Hardened.navFile E)); cbn [negb].
  - destruct (readFileSync fs (Hardened.navFile E)) as [md|];
      [|eexists _, _; by repeat split].
    destruct (marked_parse E md) as [rawHtml|];
      [|eexists _, _; by repeat split].
    destruct (sanitizeHtml E _ rawHtml) as [h|];
      eexists _, _; by repeat split.
  - eexists _, _. split; [done|]. split; [done|].
    by destruct (readFileSync fs (Hardened.navFile E)).
Qed.

End HandlerProps.

(** ** Further properties of the template substitution *)

Module TemplateProps.
Import JS Path Replace Eff Common Spec Further StringFacts PathFacts Template
  Sample.

Lemma existsb_false_notin c s : existsb (N.eqb c) s = false <-> c ∉ s.
Proof.
  induction s as [|x r IH]; cbn [existsb].
  - split; [intros _; apply not_elem_of_nil|done].
  - rewrite orb_false_iff, IH, not_elem_of_cons, N.eqb_neq. tauto.
Qed.

(** A pattern that does not occur leaves the text as it is. *)
Lemma replaceAllGo_absent pat repl before s :
  includes s pat = false -> replaceAllGo pat repl before 0 s = s.
Proof.
  revert before. induction s as [|c r IH]; intros before H; [done|].
  cbn [includes] in H. apply orb_false_iff in H as [H1 H2].
  cbn [replaceAllGo]. rewrite H1. by rewrite IH.
Qed.

Lemma replaceGo_absent pat repl before s :
  includes s pat = false -> replaceGo pat repl before s = s.
Proof.
  revert before. induction s as [|c r IH]; intros before H; [done|].
  cbn [includes] in H. apply orb_false_iff in H as [H1 H2].
  cbn [replaceGo]. rewrite H1. by rewrite IH.
Qed.

(** X18.  A template in which no placeholder occurs is rendered as it is by
    both servers, whatever the title, the navigation and the body. *)
Theorem template_without_placeholders (E : Env) title nav content :
  forallb (fun tok => negb (includes (template E) tok)) placeholders = true ->
  Hardened.substitute E title nav content = template E
  /\ Legacy.substitute E title content = template E.
Proof.
  cbn [forallb placeholders]. rewrite !andb_true_iff, !negb_true_iff.
  intros (H1 & H2 & H3 & H4 & H5 & H6 & _).
  unfold Hardened.substitute, Legacy.substitute, replaceAll, replace.
  split.
  - by rewrite (replaceAllGo_absent _ _ _ _ H1), (replaceAllGo_absent _ _ _ _ H2),
      (replaceAllGo_absent _ _ _ _ H3), (replaceAllGo_absent _ _ _ _ H4),
      (replaceAllGo_absent _ _ _ _ H5), (replaceAllGo_absent _ _ _ _ H6).
  - by rewrite (replaceGo_absent _ _ _ _ H1), (replaceGo_absent _ _ _ _ H2),
      (replaceGo_absent _ _ _ _ H3), (replaceGo_absent _ _ _ _ H4),
      (replaceGo_absent _ _ _ _ H6).
Qed.

Lemma template_without_placeholders_witness :
  Hardened.substitute E3 (lit "index") [] (lit "<h1>Hi</h1>") = template E3
  /\ Legacy.substitute E3 (lit "index") (lit "<h1>Hi</h1>") = template E3.
Proof. by apply template_without_placeholders. Defined.

(** *** Templates cut into texts and placeholders *)

Lemma startsWith_agrees s X tok :
  startsWith (s ++ X) tok = true -> agreesPrefix s tok = true.
Proof.
  revert s. induction tok as [|a tok IH]; intros s H; [by destruct s|].
  destruct s as [|b s]; [done|]. cbn [app startsWith] in H.
  apply andb_true_iff in H as [H1 H2]. cbn [agreesPrefix].
  rewrite H1. by rewrite (IH s).
Qed.

(** A stretch in which no occurrence of the pattern begins is copied. *)
Lemma replaceAllGo_independent tok v w X before :
  independent w tok = true -> DOLLAR ∉ v ->
  replaceAllGo tok v before 0 (w ++ X) = w ++ replaceAllGo tok v [] 0 X.
Proof.
  intros Hw Hd. revert before. induction w as [|c w IH]; intros before.
  - by apply replaceAllGo_before.
  - cbn [independent] in Hw. apply andb_true_iff in Hw as [H1 H2].
    apply negb_true_iff in H1. cbn [app replaceAllGo].
    destruct (startsWith (c :: w ++ X) tok) eqn:Hs.
    + apply (startsWith_agrees (c :: w) X) in Hs. congruence.
    + by rewrite IH.
Qed.

(** The pattern at the head of the text is replaced. *)
Lemma replaceAllGo_head tok v X before :
  tok <> [] -> DOLLAR ∉ v ->
  replaceAllGo tok v before 0 (tok ++ X) = v ++ replaceAllGo tok v [] 0 X.
Proof.
  intros Hne Hd. destruct tok as [|t0 tok']; [done|].
  cbn [app replaceAllGo length].
  replace (S (length tok') - 1)%nat with (length tok') by lia.
  change (t0 :: tok' ++ X) with ((t0 :: tok') ++ X).
  rewrite startsWith_app, getSubstitution_plain by done.
  rewrite replaceAllGo_skip.
  by rewrite (replaceAllGo_before _ _ ((before ++ [t0]) ++ tok') []).
Qed.

Lemma text_independent t h :
  existsb (N.eqb 123) t = false -> independent t (token h) = true.
Proof.
  induction t as [|c t IH]; intros H; [done|].
  cbn [existsb] in H. apply orb_false_iff in H as [Hc Ht].
  cbn [independent]. rewrite IH by done. rewrite andb_true_r.
  apply negb_true_iff.
  assert (Htok : exists tok', token h = 123 :: tok')
    by (destruct h; eexists; reflexivity).
  destruct Htok as [tok' ->]. cbn [agreesPrefix]. by rewrite Hc.
Qed.

Lemma hole_independent h h' :
  hole_eqb h h' = false -> independent (token h') (token h) = true.
Proof. by destruct h, h'. Qed.

Lemma token_not_nil h : token h <> [].
Proof. by destruct h. Qed.

(** One substitution over a template cut into chunks fills the holes of
    its placeholder and copies the rest. *)
Lemma replaceAll_chunks h v cs :
  forallb plainChunk cs = true -> DOLLAR ∉ v ->
  replaceAll (flatten cs) (token h) v
  = flatten (List.map (fillHole h v) cs).
Proof.
  intros Hcs Hd. unfold replaceAll, flatten.
  induction cs as [|c cs IH]; [done|].
  cbn [forallb] in Hcs. apply andb_true_iff in Hcs as [Hc Hcs].
  cbn [List.map concat]. destruct c as [t|h'].
  - cbn [chunkText fillHole]. cbn [plainChunk] in Hc.
    apply negb_true_iff in Hc.
    rewrite replaceAllGo_independent by (by apply text_independent || done).
    by rewrite IH.
  - cbn [chunkText fillHole]. destruct (hole_eqb h h') eqn:Hh.
    + assert (h' = h) as -> by (by destruct h, h').
      rewrite replaceAllGo_head by (done || apply token_not_nil).
      by rewrite IH.
    + rewrite replaceAllGo_independent by (by apply hole_independent || done).
      by rewrite IH.
Qed.

Lemma fillHole_plain h v cs :
  existsb (N.eqb 123) v = false ->
  forallb plainChunk cs = true ->
  forallb plainChunk (List.map (fillHole h v) cs) = true.
Proof.
  intros Hv. induction cs as [|c cs IH]; [done|].
  cbn [forallb List.map]. rewrite andb_true_iff. intros [Hc Hcs].
  rewrite IH by done. rewrite andb_true_r.
  destruct c as [t|h']; [done|]. cbn [fillHole].
  destruct (hole_eqb h h'); [|done]. cbn [plainChunk]. by rewrite Hv.
Qed.

Lemma inert_spec v :
  inert v = true <-> existsb (N.eqb 123) v = false /\ DOLLAR ∉ v.
Proof.
  unfold inert. rewrite andb_true_iff, !negb_true_iff.
  by rewrite (existsb_false_notin DOLLAR).
Qed.

(** X19.  On a template made of literal texts without an opening brace and
    of placeholders, the hardened substitution gives the texts with every
    placeholder filled by its value, however often and in whatever order
    the placeholders occur, when the year, the title and the navigation have
    no opening brace and no dollar sign and the body has no dollar sign. *)
Theorem substitute_fills_template (E : Env) cs title nav content :
  template E = flatten cs ->
  forallb plainChunk cs = true ->
  inert (COPYDATE E) = true ->
  inert title = true ->
  inert nav = true ->
  existsb (N.eqb DOLLAR) content = false ->
  Hardened.substitute E title nav content
  = concat (List.map (filled E title nav content) cs).
Proof.
  intros Ht Hcs Hy Hti Hn Hc.
  apply inert_spec in Hy as [Hy1 Hy2], Hti as [Hti1 Hti2], Hn as [Hn1 Hn2].
  apply existsb_false_notin in Hc.
  assert (Hs : inert SITE_NAME = true) by reflexivity.
  assert (Ha : inert AUTHOR = true) by reflexivity.
  apply inert_spec in Hs as [Hs1 Hs2], Ha as [Ha1 Ha2].
  unfold Hardened.substitute. rewrite Ht.
  change (lit "{{site}}") with (token Site).
  change (lit "{{author}}") with (token Author).
  change (lit "{{copydate}}") with (token Copydate).
  change (lit "{{title}}") with (token Title).
  change (lit "{{nav}}") with (token Nav).
  change (lit "{{content}}") with (token Content).
  rewrite replaceAll_chunks by done.
  rewrite replaceAll_chunks by (by apply fillHole_plain || done).
  rewrite replaceAll_chunks by (by repeat apply fillHole_plain || done).
  rewrite replaceAll_chunks by (by repeat apply fillHole_plain || done).
  rewrite replaceAll_chunks by (by repeat apply fillHole_plain || done).
  rewrite replaceAll_chunks by (by repeat apply fillHole_plain || done).
  unfold flatten. rewrite !List.map_map. f_equal.
  apply List.map_ext. intros [t|h]; [done|]. by destruct h.
Qed.

Lemma substitute_fills_template_witness :
  Hardened.substitute E2 (lit "index") [] (lit "<p>x</p>")
  = lit "<title>index</title><h1>index</h1><p>x</p>".
Proof.
  apply (substitute_fills_template E2
           [Text (lit "<title>"); Hole Title; Text (lit "</title><h1>");
            Hole Title; Text (lit "</h1>"); Hole Content]);
    reflexivity.
Defined.

(** *** Dollar signs in the body *)

Lemma getSubstitution_prefix m b a x r :
  DOLLAR ∉ x ->
  getSubstitution m b a (x ++ r) = x ++ getSubstitution m b a r.
Proof.
  induction x as [|c x IH]; intros H; [done|].
  apply not_elem_of_cons in H as [Hc Hx]. cbn [app getSubstitution].
  destruct (N.eqb_spec c DOLLAR); [congruence|]. by rewrite IH.
Qed.

(** Without the restriction on the replacement: a stretch in which no
    occurrence begins is copied and joins the text already passed. *)
Lemma replaceAllGo_independent_gen tok v w X before :
  independent w tok = true ->
  replaceAllGo tok v before 0 (w ++ X)
  = w ++ replaceAllGo tok v (before ++ w) 0 X.
Proof.
  intros Hw. revert before. induction w as [|c w IH]; intros before.
  - by rewrite app_nil_r.
  - cbn [independent] in Hw. apply andb_true_iff in Hw as [H1 H2].
    apply negb_true_iff in H1. cbn [app replaceAllGo].
    destruct (startsWith (c :: w ++ X) tok) eqn:Hs.
    + apply (startsWith_agrees (c :: w) X) in Hs. congruence.
    + rewrite IH by done. by rewrite <- app_assoc.
Qed.

(** The one occurrence of the pattern, between a stretch in which none
    begins and a text in which it does not occur, is replaced by the
    expansion of the replacement at that place. *)
Lemma replaceAll_single tok v pre post :
  tok <> [] -> independent pre tok = true -> includes post tok = false ->
  replaceAll (pre ++ tok ++ post) tok v
  = pre ++ getSubstitution tok pre post v ++ post.
Proof.
  intros Hne Hpre Hpost. unfold replaceAll.
  rewrite replaceAllGo_independent_gen by done. f_equal.
  destruct tok as [|t0 tok']; [done|].
  cbn [app replaceAllGo length].
  replace (S (length tok') - 1)%nat with (length tok') by lia.
  change (t0 :: tok' ++ post) with ((t0 :: tok') ++ post).
  rewrite startsWith_app. cbn [app].
  change (drop (S (length tok')) (t0 :: tok' ++ post))
    with (drop (length tok') (tok' ++ post)).
  rewrite drop_app_length. f_equal.
  rewrite replaceAllGo_skip. by apply replaceAllGo_absent.
Qed.

Lemma text_absent t h :
  existsb (N.eqb 123) t = false -> includes t (token h) = false.
Proof.
  induction t as [|c t IH]; intros H; [by destruct h|].
  cbn [existsb] in H. apply orb_false_iff in H as [Hc Ht].
  cbn [includes]. rewrite IH by done. rewrite orb_false_r.
  assert (Htok : exists tok', token h = 123 :: tok')
    by (destruct h; eexists; reflexivity).
  destruct Htok as [tok' ->]. cbn [startsWith]. by rewrite Hc.
Qed.

(** X20.  The body of a page is not put into the template as it is: a
    dollar sign followed by a dollar sign, an ampersand, a backquote or a
    quote is a pattern of [replaceAll].  With one body placeholder between
    two texts, [$$] in the body comes out as one dollar sign, [$&] as the
    placeholder itself, [$`] as the text before the placeholder and [$'] as
    the text after it. *)
Theorem body_dollar_patterns (E : Env) pre post title nav x y :
  template E = pre ++ lit "{{content}}" ++ post ->
  existsb (N.eqb 123) pre = false ->
  existsb (N.eqb 123) post = false ->
  inert (COPYDATE E) = true ->
  inert title = true ->
  inert nav = true ->
  existsb (N.eqb DOLLAR) x = false ->
  existsb (N.eqb DOLLAR) y = false ->
  Hardened.substitute E title nav (x ++ lit "$$" ++ y)
  = pre ++ (x ++ lit "$" ++ y) ++ post
  /\ Hardened.substitute E title nav (x ++ lit "$&" ++ y)
     = pre ++ (x ++ lit "{{content}}" ++ y) ++ post
  /\ Hardened.substitute E title nav (x ++ lit "$`" ++ y)
     = pre ++ (x ++ pre ++ y) ++ post
  /\ Hardened.substitute E title nav (x ++ lit "$'" ++ y)
     = pre ++ (x ++ post ++ y) ++ post.
Proof.
  intros Ht Hpre Hpost Hy Hti Hn Hx Hyy.
  apply inert_spec in Hy as [Hy1 Hy2], Hti as [Hti1 Hti2], Hn as [Hn1 Hn2].
  apply existsb_false_notin in Hx, Hyy.
  assert (Hs : inert SITE_NAME = true) by reflexivity.
  assert (Ha : inert AUTHOR = true) by reflexivity.
  apply inert_spec in Hs as [Hs1 Hs2], Ha as [Ha1 Ha2].
  assert (Hcs : forallb plainChunk [Text pre; Hole Content; Text post] = true).
  { cbn [forallb plainChunk]. by rewrite Hpre, Hpost. }
  assert (Hfive : forall content,
    Hardened.substitute E title nav content
    = replaceAll (pre ++ token Content ++ post) (token Content) content).
  { intros content. unfold Hardened.substitute. rewrite Ht.
    replace (pre ++ lit "{{content}}" ++ post)
      with (flatten [Text pre; Hole Content; Text post])
      by (unfold flatten; cbn [List.map chunkText concat token];
          by rewrite app_nil_r).
    change (lit "{{site}}") with (token Site).
    change (lit "{{author}}") with (token Author).
    change (lit "{{copydate}}") with (token Copydate).
    change (lit "{{title}}") with (token Title).
    change (lit "{{nav}}") with (token Nav).
    change (lit "{{content}}") with (token Content).
    rewrite !replaceAll_chunks by done.
    cbn [List.map fillHole hole_eqb]. unfold flatten.
    cbn [List.map chunkText concat]. by rewrite app_nil_r. }
  rewrite !Hfive.
  rewrite !replaceAll_single
    by (apply token_not_nil || by apply text_independent || by apply text_absent).
  change (lit "$$" ++ y) with (DOLLAR :: DOLLAR :: y).
  change (lit "$&" ++ y) with (DOLLAR :: 38 :: y).
  change (lit "$`" ++ y) with (DOLLAR :: 96 :: y).
  change (lit "$'" ++ y) with (DOLLAR :: 39 :: y).
  repeat split;
    rewrite getSubstitution_prefix by done;
    cbn [getSubstitution]; cbn [N.eqb Pos.eqb DOLLAR];
    by rewrite getSubstitution_plain.
Qed.

Lemma body_dollar_patterns_witness :
  Hardened.substitute E4 (lit "index") [] (lit "<p>" ++ lit "$$" ++ lit "x</p>")
  = lit "<p>$x</p>".
Proof.
  destruct (body_dollar_patterns E4 [] [] (lit "index") [] (lit "<p>") (lit "x</p>")
              eq_refl eq_refl eq_refl eq_refl eq_refl eq_refl eq_refl eq_refl)
    as (H & _).
  exact H.
Defined.

Lemma replaceAll_every_occurrence_witness :
  replaceAll (lit "<b>" ++ lit "{{title}}" ++ lit "</b>{{title}}")
    (lit "{{title}}") (lit "index")
  = lit "<b>index</b>index".
Proof.
  rewrite (replaceAll_every_occurrence (lit "{{title}}") (lit "index")
             (lit "<b>") (lit "</b>{{title}}") eq_refl).
  - reflexivity.
  - discriminate.
  - intros H. apply list_elem_of_In in H. simpl in H. intuition discriminate.
Defined.

End TemplateProps.

(** ** The legacy handler and the content root *)

Module LegacyProps.
Import JS Path Replace Eff Common Spec Further StringFacts PathFacts Sanitiser
  Resolver Cache Touch Handler UrlProps ResolverProps Sample.
Local Open Scope eff_scope.

Lemma legacy_buildPage_touches (E : Env) S route filePath :
  S filePath -> touchesOnly S (Legacy.buildPage E route filePath).
Proof.
  intros Hf.
  unfold Legacy.buildPage, Legacy.renderTemplate, Legacy.marked.
  apply touchesOnly_bind; [by apply touchesOnly_read|]. intros md.
  apply touchesOnly_bind; [apply touchesOnly_get|]. intros cached.
  assert (Hrender : forall h,
    touchesOnly S
      (let* htmlBody := log (EvMarked md) >> lift (marked_parse E md) in
       let* fullHtml := log (EvTemplate (routeName route) htmlBody) >>
                        ret (Legacy.substitute E (routeName route) htmlBody) in
       cache_set route {| Legacy.hash := h; Legacy.html := fullHtml |}
       >> ret fullHtml)).
  { intros h. touch. }
  destruct cached as [c|]; [|apply Hrender].
  destruct (streq _ _); [apply touchesOnly_ret|apply Hrender].
Qed.

(** X21.  For a URL that starts with a slash, the legacy handler tests and
    reads no file but documents strictly below the content root, whatever
    [../] sequences and escapes the URL has. *)
Theorem legacy_handler_inside_root_on_slash_urls (E : Env) req fs st r st' :
  isAbsolute (dirname E) = true ->
  startsWith (url req) (lit "/") = true ->
  Legacy.handler E req fs st = (r, st') ->
  exists extra,
    trace st' = trace st ++ extra
    /\ Forall (fun e => forall p, touched e = Some p ->
                 insideRoot (pagesDir E) p = true) extra.
Proof.
  intros Habs Hu. rewrite legacy_handler_unfold.
  assert (Hnil : exists extra : list event,
    trace st = trace st ++ extra
    /\ Forall (fun e => forall p, touched e = Some p ->
                 insideRoot (pagesDir E) p = true) extra).
  { exists []. by rewrite app_nil_r. }
  destruct (negb _); [by intros [= <- <-]|].
  destruct (sanitiseUrl (url req)) as [c|] eqn:Hc; [|by intros [= <- <-]].
  destruct (sanitiseUrl_absolute_shape _ _ Hu Hc) as (C & HC & ->).
  destruct (resolvers_on_canonical_route E Habs C HC) as (Hl & _ & Hin).
  change (lit "/") with sep in *. rewrite Hl.
  set (f := pagesDir E ++ sep ++ routeName (sep ++ join sep C) ++ lit ".md") in *.
  assert (Hbuild : forall rb s1,
    Legacy.buildPage E (sep ++ join sep C) f fs (logged (EvExists f) st)
    = (rb, s1) ->
    exists extra,
      trace s1 = trace st ++ extra
      /\ Forall (fun e => forall p, touched e = Some p ->
                   insideRoot (pagesDir E) p = true) extra).
  { intros rb s1 Hb.
    destruct (legacy_buildPage_touches E
                (fun p => insideRoot (pagesDir E) p = true)
                (sep ++ join sep C) f Hin _ _ _ _ Hb) as (extra & Ht & He).
    exists (EvExists f :: extra). rewrite Ht. cbn [logged trace].
    rewrite <- app_assoc. split; [done|].
    constructor; [|done]. by intros p [= <-]. }
  destruct (negb (existsSync fs f)).
  - intros [= <- <-]. exists [EvExists f]. split; [done|].
    constructor; [|done]. by intros p [= <-].
  - destruct (Legacy.buildPage E (sep ++ join sep C) f fs (logged (EvExists f) st))
      as [[page|] s1] eqn:Hb; intros [= <- <-]; by eapply Hbuild.
Qed.

Lemma legacy_handler_inside_root_on_slash_urls_witness :
  exists extra,
    trace (snd (Legacy.handler E0 (get "/../../etc/passwd") fsEvil fresh))
    = [] ++ extra
    /\ Forall (fun e => forall p, touched e = Some p ->
                 insideRoot (pagesDir E0) p = true) extra.
Proof.
  apply (legacy_handler_inside_root_on_slash_urls E0
           (get "/../../etc/passwd") fsEvil fresh
           (fst (Legacy.handler E0 (get "/../../etc/passwd") fsEvil fresh)));
    [reflexivity|reflexivity|].
  by destruct (Legacy.handler E0 (get "/../../etc/passwd") fsEvil fresh).
Defined.

End LegacyProps.
